(** * reposync: the start-up, the per-job mirror loop, status
      publication and the status endpoint of [main.go], as a shallow
      embedding.

    Go strings and byte slices are [string] (a list of 8-bit [ascii]
    characters).  Instants ([time.Time]) and durations ([time.Duration])
    are integers counting nanoseconds; the wrap-around of the 64-bit
    representation is outside the model.

    A mirror loop is a computation in a state monad over [World]: the
    job, a clock, and the trace of what the loop has done to the
    outside.  The outside answers commands and file reads through two
    oracles.  The loops of [mirror] do not end; they are run for a
    number of iterations given as fuel.

    The mutex of a job only serialises accesses to the three status
    fields; the model runs the request handler on a snapshot of the
    jobs and each loop on its own, so the lock has no counterpart.
    [log.Fatalf] is a result [Die]; what [json.Unmarshal], the metadata
    service, [strconv.Quote] and [time.Time.String] compute is left as
    parameters. *)

From Stdlib Require Import ZArith NArith List String Ascii Bool Arith Lia.
Import ListNotations.

Local Open Scope string_scope.
Local Open Scope list_scope.


(* ================================================================== *)
(** ** Strings and byte slices *)
(* ================================================================== *)

Module Bytes.

(** [strings.HasPrefix(s, p)]. *)
Fixpoint HasPrefix (s p : string) : bool :=
  match p with
  | EmptyString => true
  | String a p' =>
      match s with
      | EmptyString => false
      | String b s' => Ascii.eqb a b && HasPrefix s' p'
      end
  end.

(** The slice expression [s[n:]]. *)
Fixpoint drop (n : nat) (s : string) : string :=
  match n with
  | O => s
  | S k => match s with EmptyString => EmptyString | String _ s' => drop k s' end
  end.

(** [bytes.Contains(s, sub)]: [sub] occurs at some offset of [s]. *)
Fixpoint Contains (s sub : string) : bool :=
  HasPrefix s sub ||
  match s with
  | EmptyString => false
  | String _ s' => Contains s' sub
  end.

(** Membership of a byte in a string. *)
Fixpoint mem (c : ascii) (s : string) : bool :=
  match s with
  | EmptyString => false
  | String b s' => Ascii.eqb c b || mem c s'
  end.

(** *** UTF-8 sequence width, after [utf8.DecodeRune]

    Only the width of the first encoded rune matters to [bytes.Replace];
    an invalid or truncated sequence has width 1. *)

Definition between (lo hi : N) (c : ascii) : bool :=
  let n := N_of_ascii c in (lo <=? n)%N && (n <=? hi)%N.

(** The [first] table of package utf8 joined with [acceptRanges]: for a
    leading byte, the sequence size and the range its second byte must
    lie in; [None] for bytes that cannot start a multi-byte sequence. *)
Definition first (p0 : N) : option (nat * N * N) :=
  if (p0 <? 0xC2)%N then None
  else if (p0 <=? 0xDF)%N then Some (2%nat, 0x80%N, 0xBF%N)
  else if (p0 =? 0xE0)%N then Some (3%nat, 0xA0%N, 0xBF%N)
  else if (p0 <=? 0xEC)%N then Some (3%nat, 0x80%N, 0xBF%N)
  else if (p0 =? 0xED)%N then Some (3%nat, 0x80%N, 0x9F%N)
  else if (p0 <=? 0xEF)%N then Some (3%nat, 0x80%N, 0xBF%N)
  else if (p0 =? 0xF0)%N then Some (4%nat, 0x90%N, 0xBF%N)
  else if (p0 <=? 0xF3)%N then Some (4%nat, 0x80%N, 0xBF%N)
  else if (p0 =? 0xF4)%N then Some (4%nat, 0x80%N, 0x8F%N)
  else None.

Definition runeWidth (s : string) : nat :=
  match s with
  | EmptyString => 0
  | String c0 r0 =>
      if (N_of_ascii c0 <? 0x80)%N then 1 else
      match first (N_of_ascii c0), r0 with
      | Some (sz, lo, hi), String c1 r1 =>
          if negb (between lo hi c1) then 1
          else if (sz <=? 2)%nat then 2
          else match r1 with
               | String c2 r2 =>
                   if negb (between 0x80 0xBF c2) then 1
                   else if (sz <=? 3)%nat then 3
                   else match r2 with
                        | String c3 _ =>
                            if negb (between 0x80 0xBF c3) then 1 else 4
                        | EmptyString => 1
                        end
               | EmptyString => 1
               end
      | _, _ => 1
      end
  end.

(** *** [bytes.Replace(s, old, new, -1)]

    With a non-empty [old], every non-overlapping instance of [old],
    found leftmost first, is replaced by [new].  [skip] counts the bytes
    of the instance being replaced that are still to be passed over. *)
Fixpoint replace_from (old new : string) (skip : nat) (s : string) : string :=
  match s with
  | EmptyString => EmptyString
  | String c s' =>
      match skip with
      | S k => replace_from old new k s'
      | O =>
          if HasPrefix s old
          then (new ++ replace_from old new (String.length old - 1) s')%string
          else String c (replace_from old new 0 s')
      end
  end.

(** With an empty [old], [new] is inserted at the start of the slice and
    after every UTF-8 sequence. *)
Fixpoint insert_around (new : string) (skip : nat) (s : string) : string :=
  match s with
  | EmptyString => new
  | String c s' =>
      match skip with
      | S k => String c (insert_around new k s')
      | O => (new ++ String c (insert_around new (runeWidth s - 1) s'))%string
      end
  end.

Definition Replace (s old new : string) : string :=
  match old with
  | EmptyString => insert_around new 0 s
  | String _ _ => replace_from old new 0 s
  end.

End Bytes.

(* ================================================================== *)
(** ** Time *)
(* ================================================================== *)

Module Time.

Definition Time := Z.
Definition Duration := Z.

Definition Second : Duration := 1000000000%Z.
Definition Minute : Duration := (60 * Second)%Z.

(** The zero value of [time.Time]: 1 January of year 1, 00:00 UTC,
    counted from the Unix epoch. *)
Definition zero : Time := (-62135596800 * Second)%Z.

(** [t.Add(d)]. *)
Definition Add (t : Time) (d : Duration) : Time := (t + d)%Z.

(** [t.After(u)]. *)
Definition After (t u : Time) : bool := (u <? t)%Z.

End Time.

(* ================================================================== *)
(** ** Jobs *)
(* ================================================================== *)

(** [type job struct]: the three configured fields and the three status
    fields. *)
Record job : Type := mkJob {
  ID : string;
  From : string;
  To : string;
  statusTime : Time.Time;
  statusOK : bool;
  statusMessage : string
}.

(** A job as the JSON decoder or the composite literal of [main] leaves
    it: unexported fields hold their zero values. *)
Definition newJob (id from to : string) : job :=
  mkJob id from to Time.zero false "".

(** [func (j *job) dir() string]. *)
Definition dir (j : job) : string := ("repo-" ++ ID j)%string.

(** The values passed in the variadic [v ...interface{}] of [status]:
    the combined output of a command ([[]byte]) or an [error], which
    [%v] prints through its [Error()] text. *)
Inductive Value : Type :=
| Output (b : string)
| Error (e : string).

Definition format (vv : Value) : string :=
  match vv with
  | Output b => b
  | Error e => e
  end.

(* ================================================================== *)
(** ** The world a mirror loop runs in *)
(* ================================================================== *)

(** What the loop does to the outside, in the order it does it.  [Exec]
    carries the instant the command is started, [SetStatus] the instant
    read by [time.Now()]; [Log] carries the text given to [log.Printf],
    without the header the logger puts in front of it. *)
Inductive Event : Type :=
| Exec (t : Time.Time) (wd : string) (argv : list string)
| ReadFile (path : string)
| RemoveAll (path : string)
| Sleep (d : Time.Duration)
| Wait (granted : Time.Time)
| Log (text : string)
| SetStatus (ok : bool) (msg : string) (t : Time.Time).

(** The answer of the outside to a command or a file read: how long it
    took, the bytes returned and the error, if any. *)
Record Reply : Type := mkReply {
  took : N;
  out : string;
  err : option string
}.

(** The state threaded through a loop: the job (its status fields are
    what the status endpoint reads), the clock, the number of commands
    run and of files read so far, the instant the rate limiter last
    let an iteration through ([None] while its bucket is full) and the
    trace. *)
Record World : Type := mkWorld {
  self : job;
  now : Time.Time;
  calls : nat;
  reads : nat;
  limiter : option Time.Time;
  trace : list Event
}.

Definition boot (j : job) (t : Time.Time) : World := mkWorld j t 0 0 None [].

(** State monad over [World]. *)
Definition M (A : Type) : Type := World -> A * World.

Definition ret {A} (a : A) : M A := fun w => (a, w).

Definition bind {A B} (m : M A) (k : A -> M B) : M B :=
  fun w => let (a, w') := m w in k a w'.

Declare Scope monad_scope.
Delimit Scope monad_scope with monad.
Notation "x <- m ;; k" := (bind m (fun x => k))
  (at level 61, m at next level, right associativity) : monad_scope.
Notation "m ;; k" := (bind m (fun _ => k))
  (at level 61, right associativity) : monad_scope.
Local Open Scope monad_scope.

Definition emit (e : Event) : M unit :=
  fun w => (tt, mkWorld (self w) (now w) (calls w) (reads w) (limiter w) (trace w ++ [e])).

Definition getJob : M job := fun w => (self w, w).

(** [for { ... }] with [continue] as [inl] and [break] as [inr].  When
    the iterations allowed by [fuel] are used up the result is [inl] of
    the loop state reached. *)
Fixpoint iter {S A} (fuel : nat) (body : S -> M (S + A)) (s : S) : M (S + A) :=
  match fuel with
  | O => ret (inl s)
  | Datatypes.S n =>
      r <- body s ;;
      match r with
      | inl s' => iter n body s'
      | inr a => ret (inr a)
      end
  end.

(* ================================================================== *)
(** ** Status publication and the mirror loop *)
(* ================================================================== *)

Definition nl : string := String (ascii_of_nat 10) "".

Definition REDACTED_FROM : string := "<REDACTED (FROM)>".
Definition REDACTED_TO : string := "<REDACTED (TO)>".

(** The buffer [status] fills: [msg], then each supplementary value,
    one per line. *)
Definition buffer (msg : string) (v : list Value) : string :=
  (msg ++ nl ++ String.concat "" (map (fun vv => format vv ++ nl) v))%string.

(** The two [bytes.Replace] calls of [status]. *)
Definition redact (from to : string) (b : string) : string :=
  Bytes.Replace (Bytes.Replace b from REDACTED_FROM) to REDACTED_TO.

(** [func (j *job) status(ok bool, msg string, v ...interface{})]. *)
Definition status (ok : bool) (msg : string) (v : list Value) : M unit :=
  fun w =>
    let j := self w in
    let j' := mkJob (ID j) (From j) (To j) (now w) ok msg in
    let b := redact (From j) (To j) (buffer msg v) in
    (tt, mkWorld j' (now w) (calls w) (reads w) (limiter w)
           (trace w ++ [SetStatus ok msg (now w);
                        Log ((if ok then "OK: " else "FAIL: ") ++ b)%string])).

(** [func (j *job) ok(msg string, v ...interface{})]. *)
Definition ok (msg : string) (v : list Value) : M unit := status true msg v.

(** [func (j *job) statusErr(msg string, v ...interface{})]. *)
Definition statusErr (msg : string) (v : list Value) : M unit := status false msg v.

Section Mirror.

(** The answers of the outside world to the commands of one job, in the
    order they are run, and the results of its file reads, in the order
    they are made. *)
Variable answer : nat -> Reply.
Variable file : nat -> Reply.

(** [cmd.CombinedOutput()] of a command run in [wd]. *)
Definition run (wd : string) (argv : list string) : M Reply :=
  fun w =>
    let r := answer (calls w) in
    (r, mkWorld (self w) (now w + Z.of_N (took r))%Z (S (calls w)) (reads w) (limiter w)
          (trace w ++ [Exec (now w) wd argv])).

(** [ioutil.ReadFile(path)]. *)
Definition readFile (path : string) : M Reply :=
  fun w =>
    let r := file (reads w) in
    (r, mkWorld (self w) (now w + Z.of_N (took r))%Z (calls w) (S (reads w)) (limiter w)
          (trace w ++ [ReadFile path])).

(** [time.Sleep(d)]: the clock moves by the least time the call may
    take. *)
Definition sleep (d : Time.Duration) : M unit :=
  fun w =>
    (tt, mkWorld (self w) (now w + d)%Z (calls w) (reads w) (limiter w) (trace w ++ [Sleep d])).

(** [rate.NewLimiter(rate.Every(2*time.Minute), 1)]: a full bucket of
    one token. *)
Definition newLimiter : M unit :=
  fun w => (tt, mkWorld (self w) (now w) (calls w) (reads w) None (trace w)).

(** [limit.Wait(ctx)]: returns at once while the bucket is full, else
    not before two minutes after the last grant. *)
Definition granted (w : World) : Time.Time :=
  match limiter w with
  | None => now w
  | Some l => Z.max (now w) (l + 2 * Time.Minute)%Z
  end.

Definition limitWait : M unit :=
  fun w =>
    let t := granted w in
    (tt, mkWorld (self w) t (calls w) (reads w) (Some t) (trace w ++ [Wait t])).

(** The clone loop of [mirror], one iteration. *)
Definition clone_body (_ : unit) : M (unit + unit) :=
  j <- getJob ;;
  r <- run "" ["git"; "clone"; From j; dir j] ;;
  match err r with
  | None =>
      ok "Cloned" [Output (out r)] ;;
      ret (inr tt)
  | Some e =>
      statusErr "Cloning" [Error e; Output (out r)] ;;
      emit (RemoveAll (dir j)) ;;
      sleep (10 * Time.Second)%Z ;;
      ret (inl tt)
  end.

(** The remote-setup loop of [mirror], one iteration. *)
Definition remote_body (_ : unit) : M (unit + unit) :=
  j <- getJob ;;
  ok "Setting remote" [] ;;
  r <- run (dir j) ["git"; "remote"; "add"; "to"; To j] ;;
  match err r with
  | None =>
      ok "Added remote" [Output (out r)] ;;
      ret (inr tt)
  | Some e =>
      statusErr "Adding remote" [Error e; Output (out r)] ;;
      sleep Time.Second ;;
      ret (inl tt)
  end.

(** The pull/compare/push loop of [mirror], one iteration; the loop
    state is the local [oldSHA].  The loop has no [break]. *)
Definition sync_body (oldSHA : string) : M (string + Empty_set) :=
  j <- getJob ;;
  limitWait ;;
  emit (Log "Pulling") ;;
  pull <- run (dir j) ["git"; "pull"] ;;
  match err pull with
  | Some e =>
      statusErr "Pull" [Error e; Output (out pull)] ;;
      ret (inl oldSHA)
  | None =>
      emit (Log ("Pulled: " ++ out pull)%string) ;;
      sha <- readFile (dir j ++ "/.git/refs/heads/master")%string ;;
      match err sha with
      | Some e =>
          statusErr "parse HEAD" [Error e] ;;
          ret (inl oldSHA)
      | None =>
          if String.eqb (out sha) oldSHA then
            ok ("Synced - nothing to push: " ++ oldSHA)%string [] ;;
            ret (inl oldSHA)
          else
            emit (Log "Pushing") ;;
            push <- run (dir j) ["git"; "push"; "--all"; "to"] ;;
            match err push with
            | Some e =>
                statusErr "Push" [Error e; Output (out push)] ;;
                ret (inl oldSHA)
            | None =>
                emit (Log "Pushing tags") ;;
                tags <- run (dir j) ["git"; "push"; "--tags"; "to"] ;;
                match err tags with
                | Some e =>
                    statusErr "Push tags" [Error e; Output (out tags)] ;;
                    ret (inl oldSHA)
                | None =>
                    ok "Synced - pushed" [Output (out tags)] ;;
                    ret (inl (out sha))
                end
            end
      end
  end.

(** The clone phase: the first publication and the clone loop. *)
Definition cloning (fuel : nat) : M (unit + unit) :=
  ok "Cloning" [] ;;
  iter fuel clone_body tt.

(** The remote-setup loop, the creation of the rate limiter and the
    pull/compare/push loop. *)
Definition afterClone (fuel : nat) : M (option string) :=
  r <- iter fuel remote_body tt ;;
  match r with
  | inl _ => ret None
  | inr _ =>
      newLimiter ;;
      s <- iter fuel sync_body "" ;;
      match s with
      | inl oldSHA => ret (Some oldSHA)
      | inr e => match e : Empty_set with end
      end
  end.

(** [func (j *job) mirror()].  Each of the three loops may run [fuel]
    iterations.  The third loop has no [break] and the function no
    [return]: a run only ever yields [None], or the value of [oldSHA]
    reached when the fuel is used up in the third loop. *)
Definition mirror (fuel : nat) : M (option string) :=
  c <- cloning fuel ;;
  match c with
  | inl _ => ret None
  | inr _ => afterClone fuel
  end.

End Mirror.

(* ================================================================== *)
(** ** Reading traces *)
(* ================================================================== *)

(** Commands of the trace, by kind. *)
Definition isClone (e : Event) : bool :=
  match e with
  | Exec _ _ (git :: sub :: _) => String.eqb git "git" && String.eqb sub "clone"
  | _ => false
  end.

Definition isPush (e : Event) : bool :=
  match e with
  | Exec _ _ (git :: sub :: _) => String.eqb git "git" && String.eqb sub "push"
  | _ => false
  end.

(** The status publications of a trace, in order. *)
Definition statuses (evs : list Event) : list (bool * string) :=
  flat_map (fun e => match e with
                     | SetStatus ok msg _ => [(ok, msg)]
                     | _ => []
                     end) evs.

(** The commands of a trace, in order. *)
Definition commands (evs : list Event) : list (list string) :=
  flat_map (fun e => match e with
                     | Exec _ _ argv => [argv]
                     | _ => []
                     end) evs.

(** A reply that carries an error. *)
Definition failed (r : Reply) : bool :=
  match err r with Some _ => true | None => false end.

(** *** The trace of the clone phase, spelled out

    For a job [j] whose loop starts at [t0]: the instant the [i]-th
    clone is started when all earlier ones failed, the events of a
    failed attempt and those of the attempt that succeeds. *)
Section CloneTrace.

Variable answer : nat -> Reply.
Variable j : job.
Variable t0 : Time.Time.

Fixpoint attemptTime (i : nat) : Time.Time :=
  match i with
  | O => t0
  | S k => (attemptTime k + Z.of_N (took (answer k)) + 10 * Time.Second)%Z
  end.

Definition cloneCommand (i : nat) : Event :=
  Exec (attemptTime i) "" ["git"; "clone"; From j; dir j].

Definition failedAttempt (i : nat) : list Event :=
  let r := answer i in
  [cloneCommand i;
   SetStatus false "Cloning" (attemptTime i + Z.of_N (took r))%Z;
   Log ("FAIL: " ++ redact (From j) (To j)
          (buffer "Cloning"
             [Error (match err r with Some e => e | None => "" end);
              Output (out r)]))%string;
   RemoveAll (dir j);
   Sleep (10 * Time.Second)%Z].

Definition lastAttempt (i : nat) : list Event :=
  let r := answer i in
  [cloneCommand i;
   SetStatus true "Cloned" (attemptTime i + Z.of_N (took r))%Z;
   Log ("OK: " ++ redact (From j) (To j) (buffer "Cloned" [Output (out r)]))%string].

Definition firstPublication : list Event :=
  [SetStatus true "Cloning" t0;
   Log ("OK: " ++ redact (From j) (To j) (buffer "Cloning" []))%string].

(** The world is the one of job [j], about to start clone number [k]. *)
Definition atAttempt (k : nat) (w : World) : Prop :=
  calls w = k /\ now w = attemptTime k /\
  ID (self w) = ID j /\ From (self w) = From j /\ To (self w) = To j.

End CloneTrace.

(** Wherever the scan of [bytes.Replace] finds no instance of [old] in
    [s], [p] does not start either. *)
Fixpoint guarded (old p s : string) : Prop :=
  (Bytes.HasPrefix s old = false -> Bytes.HasPrefix s p = false) /\
  match s with
  | EmptyString => True
  | String _ s' => guarded old p s'
  end.

(** No clone is started. *)
Definition notClone (e : Event) : Prop := isClone e = false.

(** The job after the status publications of a trace. *)
Definition publish (j : job) (e : Event) : job :=
  match e with
  | SetStatus ok msg t => mkJob (ID j) (From j) (To j) t ok msg
  | _ => j
  end.

Definition published (evs : list Event) (j : job) : job := fold_left publish evs j.

(** [emits P Q m]: whatever the world, [m] adds to the trace only events
    that satisfy [P], changes the job only by the status publications it
    records, and gives a result that satisfies [Q]. *)
Definition emits {A} (P : Event -> Prop) (Q : A -> Prop) (m : M A) : Prop :=
  forall w, exists evs,
    trace (snd (m w)) = trace w ++ evs /\
    self (snd (m w)) = published evs (self w) /\
    Forall P evs /\ Q (fst (m w)).

(** The ten fixed messages of [mirror]. *)
Definition labels : list string :=
  ["Cloning"; "Cloned"; "Setting remote"; "Added remote"; "Adding remote";
   "Pull"; "parse HEAD"; "Push"; "Push tags"; "Synced - pushed"].

(** A value [oldSHA] can hold: the empty string it starts with, or the
    content some read of the ref file returned. *)
Definition recorded (file : nat -> Reply) (sha : string) : Prop :=
  sha = "" \/ exists k, sha = out (file k).

(** The messages [mirror] publishes: a fixed label, or the "nothing to
    push" label followed by the recorded identifier. *)
Definition phaseMessage (file : nat -> Reply) (msg : string) : Prop :=
  In msg labels \/
  exists sha, recorded file sha /\ msg = ("Synced - nothing to push: " ++ sha)%string.

Definition phaseEvent (file : nat -> Reply) (e : Event) : Prop :=
  match e with
  | SetStatus _ msg _ => phaseMessage file msg
  | _ => True
  end.

(* ================================================================== *)
(** ** Startup: [main] and [reconcile] *)
(* ================================================================== *)

(** The calls of [log.Fatalf], which end the process. *)
Inductive Fatal : Type :=
| CouldNotParse (e : string)
| ReposMustBeSet
| MissingID (j : job)
| EmptyFromOrTo (j : job)
| NoMetadata (s : string) (e : string).

Inductive result (A : Type) : Type :=
| Ok (a : A)
| Die (f : Fatal).

Arguments Ok {A} a.
Arguments Die {A} f.

(** The exported fields a JSON object of [REPOS] can set. *)
Record Descriptor : Type := mkDescriptor {
  descID : string;
  descFrom : string;
  descTo : string
}.

Section Startup.

(** [os.Getenv]. *)
Variable Getenv : string -> string.

(** [metadata.ProjectAttributeValue]: the value of an attribute, or an
    error. *)
Variable ProjectAttributeValue : string -> string + string.

(** [json.Unmarshal] into a [[]*job]: the decoded array, or an error.
    A [null] element, which the decoder turns into a nil pointer, is
    not represented. *)
Variable Unmarshal : string -> list Descriptor + string.

(** [func reconcile(s string) string]. *)
Definition reconcile (s : string) : result string :=
  if negb (Bytes.HasPrefix s "metadata:") then Ok s
  else
    match ProjectAttributeValue (Bytes.drop (String.length "metadata:") s) with
    | inl val => Ok val
    | inr e => Die (NoMetadata s e)
    end.

(** The first part of [main]: the job list from the environment. *)
Definition load : result (list job) :=
  let from := Getenv "FROM_REPO" in
  let to := Getenv "TO_REPO" in
  let spec := Getenv "REPOS" in
  if negb (String.eqb spec "") then
    match reconcile spec with
    | Die f => Die f
    | Ok spec' =>
        match Unmarshal spec' with
        | inr e => Die (CouldNotParse e)
        | inl ds => Ok (map (fun d => newJob (descID d) (descFrom d) (descTo d)) ds)
        end
    end
  else if negb (String.eqb from "") && negb (String.eqb to "") then
    Ok [newJob "default" from to]
  else Die ReposMustBeSet.

(** The second part of [main]: the loop over the jobs.  The result is
    the list of jobs whose [mirror] has been started by [go j.mirror()],
    each as it is at that point, and the fatal error that stopped the
    loop, if any. *)
Fixpoint start (js : list job) : list job * option Fatal :=
  match js with
  | [] => ([], None)
  | j :: rest =>
      if String.eqb (ID j) "" then ([], Some (MissingID j))
      else if String.eqb (From j) "" || String.eqb (To j) "" then
        ([], Some (EmptyFromOrTo j))
      else
        match reconcile (From j) with
        | Die f => ([], Some f)
        | Ok from =>
            match reconcile (To j) with
            | Die f => ([], Some f)
            | Ok to =>
                let j' := mkJob (ID j) from to (statusTime j) true (statusMessage j) in
                let (started, f) := start rest in
                (j' :: started, f)
            end
        end
  end.

(** What the loop of [main] has established when it starts the mirror
    loop of [s] for the configured job [j]. *)
Definition checked (s j : job) : Prop :=
  ID s = ID j /\ statusOK s = true /\
  ID j <> "" /\ From j <> "" /\ To j <> "" /\
  reconcile (From j) = Ok (From s) /\
  reconcile (To j) = Ok (To s) /\
  (Bytes.HasPrefix (From j) "metadata:" = false -> From s <> "") /\
  (Bytes.HasPrefix (To j) "metadata:" = false -> To s <> "").

(** [func main()], up to the registration of the handler. *)
Definition main : list job * option Fatal :=
  match load with
  | Die f => ([], Some f)
  | Ok js => start js
  end.

End Startup.

(* ================================================================== *)
(** ** The status endpoint *)
(* ================================================================== *)

Module Http.

(** [http.ResponseWriter]: the header map, the status code once the
    header has been written, and the body written so far. *)
Record ResponseWriter : Type := mkResponse {
  header : list (string * string);
  code : option Z;
  body : string
}.

Definition fresh : ResponseWriter := mkResponse [] None "".

(** [w.Header().Set(k, v)]. *)
Definition SetHeader (k v : string) (w : ResponseWriter) : ResponseWriter :=
  mkResponse ((k, v) :: filter (fun kv => negb (String.eqb (fst kv) k)) (header w))
             (code w) (body w).

(** [w.WriteHeader(c)]: only the first call counts. *)
Definition WriteHeader (c : Z) (w : ResponseWriter) : ResponseWriter :=
  match code w with
  | Some _ => w
  | None => mkResponse (header w) (Some c) (body w)
  end.

(** [w.Write(data)]: writes the header with status 200 first, unless a
    header has been written. *)
Definition Write (data : string) (w : ResponseWriter) : ResponseWriter :=
  let w' := WriteHeader 200 w in
  mkResponse (header w') (code w') (body w' ++ data)%string.

(** The status the client receives: a handler that returns without
    writing anything answers 200. *)
Definition StatusCode (w : ResponseWriter) : Z :=
  match code w with
  | Some c => c
  | None => 200%Z
  end.

End Http.

Arguments Http.WriteHeader : simpl never.
Arguments Http.Write : simpl never.
Arguments Http.SetHeader : simpl never.

Section Statusz.

(** [strconv.Quote], behind the verb [%q]. *)
Variable Quote : string -> string.

(** [time.Time.String], behind [Fprintln(w, j.statusTime)]. *)
Variable timeString : Time.Time -> string.

(** The successive readings of [time.Now()] during one request. *)
Variable clock : nat -> Time.Time.

Definition stale (t : Time.Time) (j : job) : bool :=
  Time.After t (Time.Add (statusTime j) (15 * Time.Minute)%Z).

(** The first loop of [statusz]; [k] counts the readings of the clock
    made so far. *)
Fixpoint check (k : nat) (js : list job) (w : Http.ResponseWriter)
  : Http.ResponseWriter :=
  match js with
  | [] => w
  | j :: rest =>
      let w1 := if negb (statusOK j) then Http.WriteHeader 500 w else w in
      let w2 :=
        if stale (clock k) j then
          Http.Write ("Repo " ++ Quote (ID j) ++ " possibly not fresh" ++ nl)%string
                     (Http.WriteHeader 500 w1)
        else w1 in
      check (S k) rest w2
  end.

Definition showBool (b : bool) : string := if b then "true" else "false".

(** The four [Fprintln] calls of the second loop, for one job. *)
Definition render (j : job) (w : Http.ResponseWriter) : Http.ResponseWriter :=
  let w1 := Http.Write ("---- repo" ++ " " ++ ID j ++ " " ++ "----" ++ nl)%string w in
  let w2 := Http.Write ("OK" ++ " " ++ showBool (statusOK j) ++ nl)%string w1 in
  let w3 := Http.Write (timeString (statusTime j) ++ nl)%string w2 in
  Http.Write (statusMessage j ++ nl)%string w3.

(** The reading of [check] as a test: some job is reported not OK or
    stale at the reading of the clock made for it. *)
Fixpoint anyBad (k : nat) (js : list job) : bool :=
  match js with
  | [] => false
  | j :: rest => negb (statusOK j) || stale (clock k) j || anyBad (S k) rest
  end.

(** The lines the first loop writes: one for each stale job. *)
Fixpoint staleNotes (k : nat) (js : list job) : string :=
  match js with
  | [] => ""
  | j :: rest =>
      ((if stale (clock k) j
        then "Repo " ++ Quote (ID j) ++ " possibly not fresh" ++ nl
        else "") ++ staleNotes (S k) rest)%string
  end.

(** The block of one job: header line, OK flag, time stamp, message. *)
Definition block (j : job) : string :=
  ("---- repo " ++ ID j ++ " ----" ++ nl ++
   "OK " ++ showBool (statusOK j) ++ nl ++
   timeString (statusTime j) ++ nl ++
   statusMessage j ++ nl)%string.

(** [func statusz(w http.ResponseWriter, r *http.Request)], over the
    global [jobs]. *)
Definition statusz (jobs : list job) (w : Http.ResponseWriter)
  : Http.ResponseWriter :=
  let w0 := Http.SetHeader "Content-Type" "text/plain" w in
  let w1 := check 0 jobs w0 in
  fold_left (fun acc j => render j acc) jobs w1.

End Statusz.

(* ================================================================== *)
(** ** Sample inputs *)
(* ================================================================== *)

Module Sample.

(** An environment, a metadata service and a clock given by tables. *)
Fixpoint lookup (k : string) (table : list (string * string)) : option string :=
  match table with
  | [] => None
  | (k', v) :: rest => if String.eqb k k' then Some v else lookup k rest
  end.

Definition getenv (table : list (string * string)) : string -> string :=
  fun k => match lookup k table with Some v => v | None => "" end.

Definition metadata (table : list (string * string)) : string -> string + string :=
  fun k => match lookup k table with
           | Some v => inl v
           | None => inr "metadata: not defined"
           end.

(** The JSON text of a list of descriptors whose fields need no
    escaping, and a decoder that knows this one text. *)
Definition quote : string := String (ascii_of_nat 34) "".

Definition member (name value : string) : string :=
  (quote ++ name ++ quote ++ ":" ++ quote ++ value ++ quote)%string.

Definition object (d : Descriptor) : string :=
  ("{" ++ member "ID" (descID d) ++ "," ++ member "From" (descFrom d) ++ ","
       ++ member "To" (descTo d) ++ "}")%string.

Definition json (ds : list Descriptor) : string :=
  ("[" ++ String.concat "," (map object ds) ++ "]")%string.

Definition unmarshal (ds : list Descriptor) : string -> list Descriptor + string :=
  fun s => if String.eqb s (json ds) then inl ds
           else inr "invalid character".

(** Replies given one after the other; afterwards every command
    succeeds at once with no output. *)
Definition replies (l : list Reply) : nat -> Reply :=
  fun k => nth k l (mkReply 0 "" None).

Definition success (seconds : N) (output : string) : Reply :=
  mkReply (seconds * 1000000000) output None.

Definition failure (seconds : N) (output error : string) : Reply :=
  mkReply (seconds * 1000000000) output (Some error).

(** The job of the scenario: [{ID: "a", From: "repo-x", To: "repo-y"}]. *)
Definition jobA : job := mkJob "a" "repo-x" "repo-y" Time.zero true "".

Definition sha1 : string := ("5f2b9e0c6d1a4b7e8f3c2d1a0b9e8d7c6f5a4b3c" ++ nl)%string.

End Sample.
(* ================================================================== *)
(** ** Start-up checks, as tests *)
(* ================================================================== *)

Section Passing.

Variable PAV : string -> string + string.

Definition resolves (s : string) : bool :=
  match reconcile PAV s with
  | Ok _ => true
  | Die _ => false
  end.

(** The job gets through one round of the loop of [main]. *)
Definition passes (j : job) : bool :=
  negb (String.eqb (ID j) "") &&
  negb (String.eqb (From j) "") && negb (String.eqb (To j) "") &&
  resolves (From j) && resolves (To j).

(** The job [s] is the configured job [c] as the loop of [main] starts
    its mirror loop. *)
Definition startedFrom (s c : job) : Prop :=
  ID s = ID c /\
  reconcile PAV (From c) = Ok (From s) /\
  reconcile PAV (To c) = Ok (To s) /\
  statusOK s = true /\
  statusTime s = statusTime c /\
  statusMessage s = statusMessage c.

End Passing.

(* ================================================================== *)
(** ** Redaction on plain text *)
(* ================================================================== *)

(** Every byte is below 0x80. *)
Fixpoint sevenBit (s : string) : bool :=
  match s with
  | EmptyString => true
  | String c s' => (N_of_ascii c <? 0x80)%N && sevenBit s'
  end.

(** [new] put in front of [s] and after each of its bytes. *)
Fixpoint after_each (new s : string) : string :=
  match s with
  | EmptyString => EmptyString
  | String c s' => String c (new ++ after_each new s')%string
  end.

Definition around (new s : string) : string := (new ++ after_each new s)%string.

(* ================================================================== *)
(** ** What holds all along a run of [mirror] *)
(* ================================================================== *)

(** [a] is job [j], whatever its status. *)
Definition sameJob (j a : job) : Prop :=
  ID a = ID j /\ From a = From j /\ To a = To j.

(** The five commands of job [j], its one file and its one directory. *)
Definition allowed (j : job) (e : Event) : Prop :=
  match e with
  | Exec _ wd argv =>
      (wd = "" /\ argv = ["git"; "clone"; From j; dir j]) \/
      (wd = dir j /\
       In argv [["git"; "remote"; "add"; "to"; To j];
                ["git"; "pull"];
                ["git"; "push"; "--all"; "to"];
                ["git"; "push"; "--tags"; "to"]])
  | ReadFile path => path = (dir j ++ "/.git/refs/heads/master")%string
  | RemoveAll path => path = dir j
  | _ => True
  end.

(** The instants recorded in a trace, in order. *)
Definition stamps (evs : list Event) : list Time.Time :=
  flat_map (fun e => match e with
                     | Exec t _ _ => [t]
                     | Wait t => [t]
                     | SetStatus _ _ t => [t]
                     | _ => []
                     end) evs.

(** No element is followed by a smaller one. *)
Fixpoint ascending (l : list Z) : Prop :=
  match l with
  | [] => True
  | x :: rest => Forall (fun y => (x <= y)%Z) rest /\ ascending rest
  end.

Definition orderly (j : job) (w : World) : Prop :=
  sameJob j (self w) /\
  Forall (allowed j) (trace w) /\
  ascending (stamps (trace w)) /\
  Forall (fun t => (t <= now w)%Z) (stamps (trace w)).

(** [m] keeps [I]. *)
Definition keeps {A} (I : World -> Prop) (m : M A) : Prop :=
  forall w, I w -> I (snd (m w)).

(* ================================================================== *)
(** ** The three phases of [mirror] *)
(* ================================================================== *)

(** Events of the clone loop, of the remote-setup loop and of the
    pull/compare/push loop.  A log line or a sleep may belong to any
    phase; commands, publications, file reads, removals and waits on the
    rate limiter tell the phases apart. *)
Definition inClonePhase (e : Event) : Prop :=
  match e with
  | Exec _ _ argv => exists rest, argv = "git" :: "clone" :: rest
  | SetStatus _ msg _ => msg = "Cloning" \/ msg = "Cloned"
  | ReadFile _ => False
  | Wait _ => False
  | _ => True
  end.

Definition inRemotePhase (e : Event) : Prop :=
  match e with
  | Exec _ _ argv => exists rest, argv = "git" :: "remote" :: rest
  | SetStatus _ msg _ =>
      msg = "Setting remote" \/ msg = "Added remote" \/ msg = "Adding remote"
  | ReadFile _ => False
  | Wait _ => False
  | RemoveAll _ => False
  | _ => True
  end.

Definition inSyncPhase (e : Event) : Prop :=
  match e with
  | Exec _ _ argv =>
      argv = ["git"; "pull"] \/ exists rest, argv = "git" :: "push" :: rest
  | SetStatus _ msg _ =>
      In msg ["Pull"; "parse HEAD"; "Push"; "Push tags"; "Synced - pushed"] \/
      exists sha, msg = ("Synced - nothing to push: " ++ sha)%string
  | RemoveAll _ => False
  | Sleep _ => False
  | _ => True
  end.


Example Replace_abc : Bytes.Replace "a-b-c" "-" "<>" = "a<>b<>c".
Proof. reflexivity. Qed.
Example Replace_overlap : Bytes.Replace "aaaaa" "aa" "X" = "XXa".
Proof. reflexivity. Qed.
Example Replace_empty : Bytes.Replace "abc" "" "X" = "XaXbXcX".
Proof. reflexivity. Qed.
Example Replace_empty_utf8 : Bytes.Replace "é€" "" "|" = "|é|€|".
Proof. reflexivity. Qed.
Example runeWidth_truncated : Bytes.runeWidth (String (ascii_of_nat 226) "a") = 1.
Proof. reflexivity. Qed.

(* ================================================================== *)
(** ** The status endpoint: code and body *)
(* ================================================================== *)

Section StatuszFacts.

Variable Quote : string -> string.
Variable timeString : Time.Time -> string.
Variable clock : nat -> Time.Time.

Lemma WriteHeader_body c w : Http.body (Http.WriteHeader c w) = Http.body w.
Proof. unfold Http.WriteHeader. destruct (Http.code w); reflexivity. Qed.

Lemma WriteHeader_code c w :
  Http.code (Http.WriteHeader c w) =
  match Http.code w with Some c' => Some c' | None => Some c end.
Proof. unfold Http.WriteHeader. destruct (Http.code w) eqn:E; simpl; auto. Qed.

Lemma Write_body d w : Http.body (Http.Write d w) = (Http.body w ++ d)%string.
Proof. unfold Http.Write. simpl. now rewrite WriteHeader_body. Qed.

Lemma Write_code d w :
  Http.code (Http.Write d w) =
  match Http.code w with Some c' => Some c' | None => Some 200%Z end.
Proof. unfold Http.Write. simpl. apply WriteHeader_code. Qed.

Lemma append_assoc (a b c : string) : ((a ++ b) ++ c = a ++ (b ++ c))%string.
Proof. induction a; simpl; congruence. Qed.

Lemma append_nil_r (a : string) : (a ++ "")%string = a.
Proof. induction a; simpl; congruence. Qed.

Lemma check_code k js w :
  Http.code (check Quote clock k js w) =
  match Http.code w with
  | Some c => Some c
  | None => if anyBad clock k js then Some 500%Z else None
  end.
Proof.
  revert k w. induction js as [|j rest IH]; intros k w; cbn [check anyBad].
  - destruct (Http.code w); reflexivity.
  - rewrite IH. clear IH.
    destruct (statusOK j); cbn [negb orb];
      destruct (stale (clock k) j); cbn [negb orb];
      rewrite ?Write_code, ?WriteHeader_code;
      destruct (Http.code w); try reflexivity.
Qed.

Lemma check_body k js w :
  Http.body (check Quote clock k js w) =
  (Http.body w ++ staleNotes Quote clock k js)%string.
Proof.
  revert k w. induction js as [|j rest IH]; intros k w; cbn [check staleNotes].
  - now rewrite append_nil_r.
  - rewrite IH. clear IH.
    destruct (stale (clock k) j).
    + rewrite Write_body, !WriteHeader_body.
      destruct (statusOK j); cbn [negb]; rewrite ?WriteHeader_body;
        now rewrite append_assoc.
    + destruct (statusOK j); cbn [negb]; now rewrite ?WriteHeader_body.
Qed.

Lemma render_code j w :
  Http.code (render timeString j w) =
  match Http.code w with Some c => Some c | None => Some 200%Z end.
Proof.
  unfold render. rewrite !Write_code. destruct (Http.code w); reflexivity.
Qed.

Lemma render_body j w :
  Http.body (render timeString j w) = (Http.body w ++ block timeString j)%string.
Proof.
  unfold render, block. rewrite !Write_body. rewrite !append_assoc. reflexivity.
Qed.

Lemma renders_code js w :
  Http.StatusCode (fold_left (fun acc j => render timeString j acc) js w) =
  Http.StatusCode w.
Proof.
  revert w. induction js as [|j rest IH]; intros w; simpl; [reflexivity|].
  rewrite IH. unfold Http.StatusCode. rewrite render_code.
  destruct (Http.code w); reflexivity.
Qed.

Lemma renders_body js w :
  Http.body (fold_left (fun acc j => render timeString j acc) js w) =
  (Http.body w ++ String.concat "" (map (block timeString) js))%string.
Proof.
  revert w. induction js as [|j rest IH]; intros w; simpl.
  - now rewrite append_nil_r.
  - rewrite IH, render_body, append_assoc. f_equal.
    destruct rest; simpl; [now rewrite append_nil_r | reflexivity].
Qed.

Lemma anyBad_spec k js :
  anyBad clock k js = true <->
  exists i j, nth_error js i = Some j /\
              (statusOK j = false \/
               (Time.Add (statusTime j) (15 * Time.Minute) < clock (k + i))%Z).
Proof.
  revert k. induction js as [|j rest IH]; intros k; simpl.
  - split; [discriminate|]. intros (i & j & H & _). destruct i; discriminate.
  - rewrite !orb_true_iff, IH. unfold stale, Time.After. rewrite Z.ltb_lt, negb_true_iff.
    split.
    + intros [[H|H]|(i & j' & Hn & H)].
      * exists 0, j. rewrite Nat.add_0_r. auto.
      * exists 0, j. rewrite Nat.add_0_r. auto.
      * exists (S i), j'. rewrite Nat.add_succ_r. auto.
    + intros (i & j' & Hn & H). destruct i as [|i]; simpl in Hn.
      * injection Hn as <-. rewrite Nat.add_0_r in H. tauto.
      * right. exists i, j'. rewrite Nat.add_succ_r in H. auto.
Qed.

Lemma statusz_code jobs :
  Http.StatusCode (statusz Quote timeString clock jobs Http.fresh) =
  if anyBad clock 0 jobs then 500%Z else 200%Z.
Proof.
  unfold statusz. rewrite renders_code. unfold Http.StatusCode.
  rewrite check_code. cbn. destruct (anyBad clock 0 jobs); reflexivity.
Qed.

End StatuszFacts.

(* ================================================================== *)
(** ** The pull/compare/push iteration *)
(* ================================================================== *)

Arguments redact : simpl never.
Arguments buffer : simpl never.
Arguments dir : simpl never.

Ltac step :=
  unfold sync_body, clone_body, remote_body, cloning, ok, statusErr, status,
    bind, ret, getJob, limitWait, newLimiter, emit, run, readFile, sleep;
  cbn [self now calls reads limiter trace fst snd].

Ltac flat := repeat rewrite <- app_assoc; cbn [app].

Section SyncFacts.

Variable answer : nat -> Reply.
Variable file : nat -> Reply.


Lemma sync_read_fails oldSHA w :
  failed (answer (calls w)) = false ->
  failed (file (reads w)) = true ->
  exists w',
    sync_body answer file oldSHA w = (inl oldSHA, w') /\
    ID (self w') = ID (self w) /\ From (self w') = From (self w) /\
    To (self w') = To (self w) /\
    exists evs, trace w' = trace w ++ evs /\ existsb isPush evs = false /\
                existsb isClone evs = false.
Proof.
  unfold failed. intros H1 H2.
  destruct (err (answer (calls w))) as [|] eqn:E1; [discriminate|].
  destruct (err (file (reads w))) as [e|] eqn:E2; [|discriminate].
  step. rewrite E1. step. rewrite E2. step.
  eexists. split; [reflexivity|]. cbn.
  repeat split. flat. eexists. split; [reflexivity|]. split; reflexivity.
Qed.

(** The events of an iteration that finds nothing to push. *)
Lemma sync_unchanged oldSHA w :
  failed (answer (calls w)) = false ->
  failed (file (reads w)) = false ->
  out (file (reads w)) = oldSHA ->
  let j := self w in
  let msg := ("Synced - nothing to push: " ++ oldSHA)%string in
  let t := (granted w + Z.of_N (took (answer (calls w)))
                      + Z.of_N (took (file (reads w))))%Z in
  sync_body answer file oldSHA w =
  (inl oldSHA,
   mkWorld (mkJob (ID j) (From j) (To j) t true msg) t
           (S (calls w)) (S (reads w)) (Some (granted w))
           (trace w ++
            [Wait (granted w); Log "Pulling";
             Exec (granted w) (dir j) ["git"; "pull"];
             Log ("Pulled: " ++ out (answer (calls w)))%string;
             ReadFile (dir j ++ "/.git/refs/heads/master")%string;
             SetStatus true msg t;
             Log ("OK: " ++ redact (From j) (To j) (buffer msg []))%string])).
Proof.
  unfold failed. intros H1 H2 H3.
  destruct (err (answer (calls w))) as [|] eqn:E1; [discriminate|].
  destruct (err (file (reads w))) as [|] eqn:E2; [discriminate|].
  step. rewrite E1. step. rewrite E2. step. rewrite H3, String.eqb_refl. step.
  flat. reflexivity.
Qed.




End SyncFacts.

(** C3: a Syncing iteration whose pull succeeds and whose ref file holds
    the recorded identifier starts no push command, publishes an OK
    status with the message "Synced - nothing to push: " followed by the
    identifier, and ends in [continue] with the recorded identifier
    unchanged. *)
Theorem sync_nothing_to_push (answer file : nat -> Reply) (oldSHA : string) (w : World) :
  failed (answer (calls w)) = false ->
  failed (file (reads w)) = false ->
  out (file (reads w)) = oldSHA ->
  exists w' evs t,
    sync_body answer file oldSHA w = (inl oldSHA, w') /\
    trace w' = trace w ++ evs /\
    existsb isPush evs = false /\
    evs = [Wait (granted w); Log "Pulling";
           Exec (granted w) (dir (self w)) ["git"; "pull"];
           Log ("Pulled: " ++ out (answer (calls w)))%string;
           ReadFile (dir (self w) ++ "/.git/refs/heads/master")%string;
           SetStatus true ("Synced - nothing to push: " ++ oldSHA)%string t;
           Log ("OK: " ++ redact (From (self w)) (To (self w))
                  (buffer ("Synced - nothing to push: " ++ oldSHA) []))%string] /\
    statusOK (self w') = true /\
    statusMessage (self w') = ("Synced - nothing to push: " ++ oldSHA)%string /\
    statusTime (self w') = t.
Proof.
  intros H1 H2 H3. rewrite (sync_unchanged answer file oldSHA w H1 H2 H3).
  eexists _, _, _. split; [reflexivity|]. cbn [trace self statusOK statusMessage statusTime].
  split; [reflexivity|]. repeat split.
Qed.


(* ================================================================== *)
(** ** The clone phase *)
(* ================================================================== *)

Section CloneFacts.

Variable answer : nat -> Reply.
Variable j : job.
Variable t0 : Time.Time.

Lemma clone_fails k w :
  atAttempt answer j t0 k w ->
  failed (answer k) = true ->
  exists w',
    clone_body answer tt w = (inl tt, w') /\
    atAttempt answer j t0 (S k) w' /\
    trace w' = trace w ++ failedAttempt answer j t0 k /\
    statusOK (self w') = false /\ statusMessage (self w') = "Cloning" /\
    limiter w' = limiter w.
Proof.
  intros (Hc & Hn & HI & HF & HT) F. unfold failed in F.
  destruct (err (answer k)) as [e|] eqn:E; [|discriminate].
  step. rewrite Hc, E. step.
  eexists. split; [reflexivity|]. unfold atAttempt. cbn.
  rewrite Hn. repeat split; auto.
  flat. unfold failedAttempt, cloneCommand, dir. rewrite E, HI, HF, HT. reflexivity.
Qed.

Lemma clone_succeeds k w :
  atAttempt answer j t0 k w ->
  failed (answer k) = false ->
  exists w',
    clone_body answer tt w = (inr tt, w') /\
    trace w' = trace w ++ lastAttempt answer j t0 k /\
    calls w' = S k /\
    now w' = (attemptTime answer t0 k + Z.of_N (took (answer k)))%Z /\
    ID (self w') = ID j /\
    statusOK (self w') = true /\ statusMessage (self w') = "Cloned" /\
    limiter w' = limiter w.
Proof.
  intros (Hc & Hn & HI & HF & HT) F. unfold failed in F.
  destruct (err (answer k)) as [e|] eqn:E; [discriminate|].
  step. rewrite Hc, E. step.
  eexists. split; [reflexivity|]. cbn.
  rewrite Hn. repeat split; auto.
  flat. unfold lastAttempt, cloneCommand, dir. rewrite HI, HF, HT. reflexivity.
Qed.

(** [m] failures, then a success: the loop ends at attempt [k + m]. *)
Lemma clone_loop m : forall k w extra,
  atAttempt answer j t0 k w ->
  (forall i, i < m -> failed (answer (k + i)) = true) ->
  failed (answer (k + m)) = false ->
  exists w',
    iter (S m + extra) (clone_body answer) tt w = (inr tt, w') /\
    trace w' = trace w ++ flat_map (failedAttempt answer j t0) (seq k m)
                       ++ lastAttempt answer j t0 (k + m) /\
    calls w' = S (k + m) /\
    now w' = (attemptTime answer t0 (k + m) + Z.of_N (took (answer (k + m))))%Z /\
    ID (self w') = ID j /\
    statusOK (self w') = true /\ statusMessage (self w') = "Cloned" /\
    limiter w' = limiter w.
Proof.
  induction m as [|m IH]; intros k w extra Hw Hfail Hok.
  - rewrite Nat.add_0_r in *.
    destruct (clone_succeeds k w Hw Hok) as (w' & E & Htr & Hrest).
    exists w'. cbn [Nat.add iter]. unfold bind. rewrite E. split; [reflexivity|].
    split; [exact Htr | exact Hrest].
  - assert (F : failed (answer k) = true).
    { rewrite <- (Nat.add_0_r k). apply Hfail. lia. }
    destruct (clone_fails k w Hw F) as (w1 & E & Hw1 & Htr & _ & _ & Hl).
    destruct (IH (S k) w1 extra Hw1) as (w' & E' & Htr' & Hrest).
    { intros i Hi. replace (S k + i) with (k + S i) by lia. apply Hfail. lia. }
    { replace (S k + m) with (k + S m) by lia. exact Hok. }
    exists w'. change (S (S m) + extra) with (S (S m + extra)).
    cbn [iter]. unfold bind at 1. rewrite E, E'. split; [reflexivity|].
    replace (k + S m) with (S k + m) by lia. rewrite Hl in Hrest.
    split; [|exact Hrest].
    rewrite Htr', Htr. cbn [seq flat_map]. now rewrite <- !app_assoc.
Qed.

(** While the clones fail the loop does not end. *)
Lemma clone_loop_stays fuel : forall k w,
  atAttempt answer j t0 k w ->
  (forall i, i < fuel -> failed (answer (k + i)) = true) ->
  fst (iter fuel (clone_body answer) tt w) = inl tt.
Proof.
  induction fuel as [|fuel IH]; intros k w Hw Hfail; [reflexivity|].
  assert (F : failed (answer k) = true).
  { rewrite <- (Nat.add_0_r k). apply Hfail. lia. }
  destruct (clone_fails k w Hw F) as (w1 & E & Hw1 & _).
  cbn [iter]. unfold bind. rewrite E. apply (IH (S k) w1 Hw1).
  intros i Hi. replace (S k + i) with (k + S i) by lia. apply Hfail. lia.
Qed.

Lemma filter_isClone_failed k m :
  List.length (filter isClone (flat_map (failedAttempt answer j t0) (seq k m))) = m.
Proof.
  revert k. induction m as [|m IH]; intros k; [reflexivity|].
  cbn [seq flat_map]. rewrite filter_app, length_app, IH. reflexivity.
Qed.

Lemma attempts_spaced i :
  (attemptTime answer t0 i + 10 * Time.Second <= attemptTime answer t0 (S i))%Z.
Proof. cbn [attemptTime]. lia. Qed.

End CloneFacts.

(* ================================================================== *)
(** ** What a computation adds to the trace *)
(* ================================================================== *)

Section Emits.

Variable answer : nat -> Reply.
Variable file : nat -> Reply.
Variable P : Event -> Prop.

Lemma published_app evs1 evs2 j :
  published (evs1 ++ evs2) j = published evs2 (published evs1 j).
Proof. apply fold_left_app. Qed.

Lemma emits_ret {A} (Q : A -> Prop) a : Q a -> emits P Q (ret a).
Proof.
  intros H w. exists []. cbn. rewrite app_nil_r. auto.
Qed.

Lemma emits_bind {A B} (Q1 : A -> Prop) (Q2 : B -> Prop) (m : M A) (k : A -> M B) :
  emits P Q1 m ->
  (forall a, Q1 a -> emits P Q2 (k a)) ->
  emits P Q2 (bind m k).
Proof.
  intros Hm Hk w. unfold bind.
  destruct (Hm w) as (evs1 & Ht1 & Hs1 & Hp1 & Hq1).
  destruct (m w) as [a w1]. cbn [fst snd] in *.
  destruct (Hk a Hq1 w1) as (evs2 & Ht2 & Hs2 & Hp2 & Hq2).
  exists (evs1 ++ evs2). rewrite Ht2, Ht1, app_assoc, Hs2, Hs1, published_app.
  split; [reflexivity|]. split; [reflexivity|]. split; [|exact Hq2].
  apply Forall_app. auto.
Qed.

Lemma emits_weaken {A} (Q Q' : A -> Prop) (m : M A) :
  emits P Q m -> (forall a, Q a -> Q' a) -> emits P Q' m.
Proof.
  intros H HQ w. destruct (H w) as (evs & Ht & Hs & Hp & Hq). exists evs. auto.
Qed.

Lemma emits_emit e :
  P e -> (forall ok msg t, e <> SetStatus ok msg t) -> emits P (fun _ => True) (emit e).
Proof.
  intros H Hne w. exists [e]. cbn. split; [reflexivity|]. split; [|auto].
  destruct e; try reflexivity. exfalso. eapply Hne. reflexivity.
Qed.

Lemma emits_getJob : emits P (fun _ => True) getJob.
Proof.
  intros w. exists []. cbn. rewrite app_nil_r. auto.
Qed.

Lemma emits_status ok msg v :
  (forall t, P (SetStatus ok msg t)) -> (forall text, P (Log text)) ->
  emits P (fun _ => True) (status ok msg v).
Proof.
  intros H1 H2 w. eexists. cbn. split; [reflexivity|]. auto.
Qed.

Lemma emits_run wd argv :
  (forall t, P (Exec t wd argv)) ->
  emits P (fun r => exists k, r = answer k) (run answer wd argv).
Proof.
  intros H w. eexists. cbn. split; [reflexivity|]. split; [reflexivity|].
  split; [auto|]. eauto.
Qed.

Lemma emits_readFile path :
  P (ReadFile path) ->
  emits P (fun r => exists k, r = file k) (readFile file path).
Proof.
  intros H w. eexists. cbn. split; [reflexivity|]. split; [reflexivity|].
  split; [auto|]. eauto.
Qed.

Lemma emits_sleep d : P (Sleep d) -> emits P (fun _ => True) (sleep d).
Proof.
  intros H w. eexists. cbn. split; [reflexivity|]. auto.
Qed.

Lemma emits_limitWait : (forall t, P (Wait t)) -> emits P (fun _ => True) limitWait.
Proof.
  intros H w. eexists. cbn. split; [reflexivity|]. auto.
Qed.

Lemma emits_newLimiter : emits P (fun _ => True) newLimiter.
Proof.
  intros w. exists []. cbn. rewrite app_nil_r. auto.
Qed.

(** A loop whose body keeps [I] on [continue] keeps it however long it
    runs. *)
Lemma emits_iter {S A} (I : S -> Prop) (Q : A -> Prop) (body : S -> M (S + A)) :
  (forall s, I s ->
     emits P (fun r => match r with inl s' => I s' | inr a => Q a end) (body s)) ->
  forall fuel s, I s ->
     emits P (fun r => match r with inl s' => I s' | inr a => Q a end)
           (iter fuel body s).
Proof.
  intros Hbody. induction fuel as [|fuel IH]; intros s Hs.
  - apply emits_ret. exact Hs.
  - cbn [iter]. eapply emits_bind; [apply Hbody; exact Hs|].
    intros [s'|a] H.
    + apply IH. exact H.
    + apply emits_ret. exact H.
Qed.

End Emits.

Ltac emits_prim :=
  first [ apply emits_getJob | apply emits_status | apply emits_run
        | apply emits_readFile | apply emits_sleep | apply emits_limitWait
        | apply emits_newLimiter | apply emits_emit ].

Ltac emits_auto :=
  repeat first
    [ apply emits_ret
    | eapply emits_bind; [ emits_prim | intros ? ? ]
    | match goal with
      | |- emits _ _ (match ?x with _ => _ end) => destruct x eqn:?
      end ].

Section MirrorEmits.

Variable answer : nat -> Reply.
Variable file : nat -> Reply.

Lemma remote_body_notClone :
  emits notClone (fun r : unit + unit => match r with inl _ => True | inr _ => True end)
        (remote_body answer tt).
Proof.
  unfold remote_body, ok, statusErr. emits_auto.
  all: try (intros; reflexivity); try exact I; try discriminate.
Qed.

Lemma sync_body_notClone oldSHA :
  emits notClone (fun r : string + Empty_set => match r with inl _ => True | inr _ => True end)
        (sync_body answer file oldSHA).
Proof.
  unfold sync_body, ok, statusErr. emits_auto.
  all: try (intros; reflexivity); try exact I; try discriminate.
Qed.

Lemma afterClone_notClone fuel :
  emits notClone (fun _ => True) (afterClone answer file fuel).
Proof.
  unfold afterClone.
  eapply emits_bind.
  { apply (emits_iter notClone (fun _ : unit => True) (fun _ : unit => True)).
    - intros [] _. apply remote_body_notClone.
    - exact I. }
  intros [[]|[]] _.
  - apply emits_ret. exact I.
  - eapply emits_bind; [apply emits_newLimiter|]. intros _ _.
    eapply emits_bind.
    { apply (emits_iter notClone (fun _ : string => True) (fun _ : Empty_set => True)).
      - intros s _. apply sync_body_notClone.
      - exact I. }
    intros [s|[]] _. apply emits_ret. exact I.
Qed.

(** The remote-setup loop opens with the publication of "Setting
    remote". *)
Lemma afterClone_head fuel w :
  0 < fuel ->
  exists rest,
    trace (snd (afterClone answer file fuel w)) =
    trace w ++ SetStatus true "Setting remote" (now w) :: rest.
Proof.
  intros Hf. destruct fuel as [|n]; [lia|].
  pose (k := fun r : unit + unit =>
    (match r with
     | inl _ => ret None
     | inr _ =>
         newLimiter ;;
         s <- iter (S n) (sync_body answer file) "" ;;
         match s with
         | inl oldSHA => ret (Some oldSHA)
         | inr e => match e : Empty_set with end
         end
     end)%monad).
  pose (k1 := fun r : unit + unit =>
    (match r with
     | inl s' => iter n (remote_body answer) s'
     | inr a => ret (inr a)
     end)%monad).
  assert (Hhead : exists es w1 r, remote_body answer tt w = (r, w1) /\
            trace w1 = trace w ++ SetStatus true "Setting remote" (now w) :: es).
  { step. destruct (err (answer (calls w))); step; flat;
      eexists _, _, _; (split; [reflexivity|]); cbn [trace]; reflexivity. }
  destruct Hhead as (es & w1 & r & E & Htr).
  assert (Hrest : emits notClone (fun _ => True) (bind (k1 r) k)).
  { eapply emits_bind with (Q1 := fun _ => True).
    - destruct r as [[]|[]]; unfold k1.
      + eapply emits_weaken.
        * apply (emits_iter notClone (fun _ : unit => True) (fun _ : unit => True)).
          -- intros [] _. apply remote_body_notClone.
          -- exact I.
        * auto.
      + apply emits_ret. exact I.
    - intros [[]|[]] _; unfold k.
      + apply emits_ret. exact I.
      + eapply emits_bind; [apply emits_newLimiter|]. intros _ _.
        eapply emits_bind.
        { apply (emits_iter notClone (fun _ : string => True) (fun _ : Empty_set => True)).
          - intros s _. apply sync_body_notClone.
          - exact I. }
        intros [s|[]] _. apply emits_ret. exact I. }
  destruct (Hrest w1) as (evs & Ht & _).
  exists (es ++ evs).
  change (afterClone answer file (S n) w) with (bind (bind (remote_body answer tt) k1) k w).
  unfold bind at 1 2. rewrite E.
  change (trace (snd (bind (k1 r) k w1)) =
          trace w ++ SetStatus true "Setting remote" (now w) :: es ++ evs).
  rewrite Ht, Htr, <- app_assoc. reflexivity.
Qed.

End MirrorEmits.

(** C4: when the clone command fails [N] times and then succeeds, the
    mirror loop runs it exactly [N + 1] times; each failure is followed
    by the publication of a failing status "Cloning", the removal of the
    working directory and a sleep of ten seconds, so that consecutive
    attempts start at least ten seconds apart; the loop is left once,
    after attempt [N + 1] and not before, into the remote-setup loop,
    and no clone is started afterwards. *)
Theorem clone_retries (answer file : nat -> Reply) (j : job) (t0 : Time.Time)
    (N fuel : nat) :
  (forall i, i < N -> failed (answer i) = true) ->
  failed (answer N) = false ->
  N < fuel ->
  exists w',
    cloning answer fuel (boot j t0) = (inr tt, w') /\
    trace w' = firstPublication j t0
               ++ flat_map (failedAttempt answer j t0) (seq 0 N)
               ++ lastAttempt answer j t0 N /\
    List.length (filter isClone (trace w')) = S N /\
    (forall i, i < N ->
       (attemptTime answer t0 i + 10 * Time.Second
        <= attemptTime answer t0 (S i))%Z) /\
    (forall fuel', fuel' <= N -> fst (cloning answer fuel' (boot j t0)) = inl tt) /\
    exists rest,
      trace (snd (mirror answer file fuel (boot j t0))) =
        trace w' ++ SetStatus true "Setting remote" (now w') :: rest /\
      Forall notClone rest.
Proof.
  intros Hfail Hok Hfuel.
  pose (w0 := snd (ok "Cloning" [] (boot j t0))).
  assert (Hw0 : atAttempt answer j t0 0 w0) by (repeat split).
  destruct (clone_loop answer j t0 N 0 w0 (fuel - S N) Hw0) as (w' & E & Htr & _).
  { intros i Hi. apply Hfail. exact Hi. }
  { exact Hok. }
  replace (S N + (fuel - S N)) with fuel in E by lia.
  assert (Ecl : cloning answer fuel (boot j t0) = (inr tt, w')) by exact E.
  assert (Htr' : trace w' = firstPublication j t0
               ++ flat_map (failedAttempt answer j t0) (seq 0 N)
               ++ lastAttempt answer j t0 N) by exact Htr.
  exists w'. split; [exact Ecl|]. split; [exact Htr'|]. split.
  { rewrite Htr'. rewrite !filter_app, !length_app, filter_isClone_failed.
    cbn. lia. }
  split; [intros i _; apply attempts_spaced|]. split.
  { intros fuel' Hle.
    apply (clone_loop_stays answer j t0 fuel' 0 w0 Hw0).
    intros i Hi. apply Hfail. lia. }
  destruct (afterClone_head answer file fuel w') as (rest & Hrest); [lia|].
  exists rest.
  assert (Em : snd (mirror answer file fuel (boot j t0)) =
               snd (afterClone answer file fuel w')).
  { unfold mirror, bind. rewrite Ecl. reflexivity. }
  rewrite Em. split; [exact Hrest|].
  destruct (afterClone_notClone answer file fuel w') as (evs & Ht & _ & Hp & _).
  rewrite Ht in Hrest. apply app_inv_head in Hrest. subst evs.
  inversion Hp; assumption.
Qed.

(* ================================================================== *)
(** ** Replacement and occurrences *)
(* ================================================================== *)

Section Occurrences.

Import Bytes.

Lemma HasPrefix_nil s : HasPrefix s "" = true.
Proof. destruct s; reflexivity. Qed.

Lemma Contains_nil s : Contains s "" = true.
Proof. destruct s; reflexivity. Qed.

Lemma Contains_tail c s p : Contains (String c s) p = false -> Contains s p = false.
Proof. cbn [Contains]. intros H. apply orb_false_iff in H. tauto. Qed.

Lemma Contains_head s p : Contains s p = false -> HasPrefix s p = false.
Proof. destruct s; cbn [Contains]; intros H; apply orb_false_iff in H; tauto. Qed.

Lemma mem_app c s t : mem c (s ++ t) = mem c s || mem c t.
Proof.
  induction s as [|b s IH]; [reflexivity|].
  cbn. rewrite IH. now rewrite orb_assoc.
Qed.

(** A pattern that starts inside [u] and matches [u ++ t] either ends
    inside [u] or runs over all of [u]. *)
Lemma HasPrefix_app u t p :
  HasPrefix (u ++ t) p = true ->
  HasPrefix u p = true \/ (forall c, mem c u = true -> mem c p = true).
Proof.
  revert p. induction u as [|b u IH]; intros p H.
  - right. intros c Hc. discriminate.
  - destruct p as [|a p]; [left; reflexivity|].
    cbn in H. apply andb_true_iff in H. destruct H as [Hab Hp].
    apply Ascii.eqb_eq in Hab. subst b.
    destruct (IH p Hp) as [Hl|Hr].
    + left. cbn. now rewrite Ascii.eqb_refl.
    + right. intros c Hc. cbn in Hc |- *.
      apply orb_true_iff in Hc. destruct Hc as [Hc|Hc].
      * now rewrite Hc.
      * rewrite (Hr c Hc). apply orb_true_r.
Qed.

Lemma HasPrefix_cons c t q :
  HasPrefix (String c t) q = true ->
  q = "" \/ exists q', q = String c q' /\ HasPrefix t q' = true.
Proof.
  destruct q as [|b q]; [now left|]. cbn. intros H.
  apply andb_true_iff in H. destruct H as [Hbc H].
  apply Ascii.eqb_eq in Hbc. subst b. right. eauto.
Qed.

Lemma HasPrefix_empty q : HasPrefix "" q = true -> q = "".
Proof. destruct q; [reflexivity | discriminate]. Qed.

Section OnePass.

Variables old mid p : string.
Variables a z : ascii.

Local Abbreviation new := (String a (mid ++ String z "")).

Hypothesis p_first : mem a p = false.
Hypothesis p_last : mem z p = false.
Hypothesis p_inside : Contains new p = false.

Lemma p_not_nil : p <> "".
Proof.
  intros E. pose proof p_inside as H. rewrite E in H. discriminate.
Qed.

(** No occurrence of [p] starts in a copy of [new] put in front of a
    text free of [p]. *)
Lemma Contains_new_app u t :
  Contains (u ++ String z "") p = false ->
  Contains t p = false ->
  Contains ((u ++ String z "") ++ t) p = false.
Proof.
  intros Hu Ht. induction u as [|c u IH].
  - cbn [append Contains]. rewrite Ht, orb_false_r.
    destruct (HasPrefix (String z t) p) eqn:E; [|reflexivity]. exfalso.
    apply HasPrefix_cons in E. destruct E as [E|(q & E & _)].
    + now apply p_not_nil.
    + pose proof p_last as Hl. rewrite E in Hl. cbn in Hl.
      rewrite Ascii.eqb_refl in Hl. discriminate.
  - change ((String c u ++ String z "") ++ t)%string
      with (String c ((u ++ String z "") ++ t)).
    cbn [Contains]. rewrite (IH (Contains_tail _ _ _ Hu)), orb_false_r.
    destruct (HasPrefix (String c ((u ++ String z "") ++ t)) p) eqn:E; [|reflexivity].
    exfalso.
    destruct (HasPrefix_app (String c (u ++ String z "")) t p E) as [Hl|Hr].
    + apply Contains_head in Hu. cbn [append] in Hu. congruence.
    + assert (Hz : mem z (String c (u ++ String z "")) = true).
      { cbn [mem]. rewrite mem_app. cbn. rewrite Ascii.eqb_refl.
        now rewrite !orb_true_r. }
      apply Hr in Hz. pose proof p_last. congruence.
Qed.

(** A prefix of the output that holds no first byte of [new] is a
    prefix of the input. *)
Lemma HasPrefix_replace_from s : forall q,
  mem a q = false ->
  HasPrefix (replace_from old new 0 s) q = true ->
  HasPrefix s q = true.
Proof.
  induction s as [|c s IH]; intros q Hq H.
  - exact H.
  - destruct q as [|b q]; [reflexivity|].
    cbn in Hq. apply orb_false_iff in Hq. destruct Hq as [Hab Hq].
    cbn [replace_from] in H.
    destruct (HasPrefix (String c s) old).
    + cbn in H. rewrite Ascii.eqb_sym, Hab in H. discriminate.
    + cbn in H |- *. apply andb_true_iff in H. destruct H as [Hbc H].
      rewrite Hbc. cbn. apply IH; assumption.
Qed.

Lemma replace_from_free s : forall k,
  guarded old p s -> Contains (replace_from old new k s) p = false.
Proof.
  induction s as [|c s IH]; intros k G.
  - cbn [replace_from Contains]. rewrite orb_false_r.
    destruct (HasPrefix "" p) eqn:E; [|reflexivity].
    apply HasPrefix_empty in E. exfalso. now apply p_not_nil.
  - destruct G as [G0 G]. destruct k as [|k]; cbn [replace_from]; [|apply IH; exact G].
    destruct (HasPrefix (String c s) old) eqn:E.
    + change (String a (mid ++ String z ""))
        with ((String a mid) ++ String z "")%string.
      apply Contains_new_app; [exact p_inside | apply IH; exact G].
    + cbn [Contains]. rewrite (IH 0 G), orb_false_r.
      destruct (HasPrefix (String c (replace_from old new 0 s)) p) eqn:E'; [|reflexivity].
      exfalso. specialize (G0 eq_refl).
      apply HasPrefix_cons in E'. destruct E' as [E'|(q & Ep & E')].
      * now apply p_not_nil.
      * pose proof p_first as Hf. rewrite Ep in Hf, G0. cbn in Hf.
        apply orb_false_iff in Hf. destruct Hf as [_ Hq].
        apply HasPrefix_replace_from in E'; [|exact Hq].
        cbn in G0. rewrite Ascii.eqb_refl, E' in G0. discriminate.
Qed.

Lemma guarded_free s : Contains s p = false -> guarded old p s.
Proof.
  induction s as [|c s IH]; intros H.
  - split; [|exact I]. intros _. now apply Contains_head.
  - split.
    + intros _. now apply Contains_head.
    + apply IH. eapply Contains_tail. exact H.
Qed.

End OnePass.

Lemma guarded_self old s : guarded old old s.
Proof.
  induction s as [|c s IH]; (split; [auto|]); [exact I | exact IH].
Qed.

End Occurrences.

(* ================================================================== *)
(** ** The messages [mirror] publishes *)
(* ================================================================== *)

Section PhaseMessages.

Variable answer : nat -> Reply.
Variable file : nat -> Reply.

Ltac label := intros; cbn; left; cbn; tauto.

Ltac phase_side :=
  first [ exact I | discriminate | (intros; exact I) | label ].

Lemma clone_body_phase :
  emits (phaseEvent file)
        (fun r : unit + unit => match r with inl _ => True | inr _ => True end)
        (clone_body answer tt).
Proof.
  unfold clone_body, ok, statusErr. emits_auto. all: phase_side.
Qed.

Lemma remote_body_phase :
  emits (phaseEvent file)
        (fun r : unit + unit => match r with inl _ => True | inr _ => True end)
        (remote_body answer tt).
Proof.
  unfold remote_body, ok, statusErr. emits_auto. all: phase_side.
Qed.

Lemma sync_body_phase oldSHA :
  recorded file oldSHA ->
  emits (phaseEvent file)
        (fun r : string + Empty_set =>
           match r with inl s => recorded file s | inr _ => True end)
        (sync_body answer file oldSHA).
Proof.
  intros Hrec. unfold sync_body, ok, statusErr. emits_auto.
  all: try assumption.
  all: try phase_side.
  - intros t. cbn. right. exists oldSHA. auto.
  - cbv beta in *. right.
    match goal with H : exists k, _ = file k |- _ => destruct H as [k ->] end.
    eauto.
Qed.

Lemma afterClone_phase fuel :
  emits (phaseEvent file) (fun _ => True) (afterClone answer file fuel).
Proof.
  unfold afterClone.
  eapply emits_bind.
  { apply (emits_iter (phaseEvent file) (fun _ : unit => True) (fun _ : unit => True)).
    - intros [] _. apply remote_body_phase.
    - exact I. }
  intros [[]|[]] _.
  - apply emits_ret. exact I.
  - eapply emits_bind; [apply emits_newLimiter|]. intros _ _.
    eapply emits_bind.
    { apply (emits_iter (phaseEvent file) (recorded file) (fun _ : Empty_set => True)).
      - intros s Hs. apply sync_body_phase. exact Hs.
      - left. reflexivity. }
    intros [s|[]] _. apply emits_ret. exact I.
Qed.

Lemma cloning_rest_phase fuel :
  emits (phaseEvent file) (fun _ => True)
    (c <- iter fuel (clone_body answer) tt ;;
     match c with
     | inl _ => ret None
     | inr _ => afterClone answer file fuel
     end).
Proof.
  eapply emits_bind.
  { apply (emits_iter (phaseEvent file) (fun _ : unit => True) (fun _ : unit => True)).
    - intros [] _. apply clone_body_phase.
    - exact I. }
  intros [[]|[]] _.
  - apply emits_ret. exact I.
  - apply afterClone_phase.
Qed.

(** [mirror] opens with the publication of "Cloning"; everything after
    is a phase event, and the job is what these publications make it. *)
Lemma mirror_head fuel j t0 :
  exists rest,
    trace (snd (mirror answer file fuel (boot j t0))) = firstPublication j t0 ++ rest /\
    self (snd (mirror answer file fuel (boot j t0))) =
      published (firstPublication j t0 ++ rest) j /\
    Forall (phaseEvent file) rest.
Proof.
  destruct (cloning_rest_phase fuel (snd (ok "Cloning" [] (boot j t0))))
    as (rest & Ht & Hs & Hp & _).
  exists rest. split; [exact Ht|]. split; [|exact Hp].
  rewrite published_app. exact Hs.
Qed.

Lemma published_phase evs : forall j,
  Forall (phaseEvent file) evs ->
  phaseMessage file (statusMessage j) ->
  phaseMessage file (statusMessage (published evs j)).
Proof.
  induction evs as [|e evs IH]; intros j Hp Hj; [exact Hj|].
  inversion Hp as [|? ? He Hes]; subst.
  apply (IH (publish j e) Hes).
  destruct e; try exact Hj. exact He.
Qed.

End PhaseMessages.

(** C7, amended: a status update stores its message argument as it is,
    whatever the supplementary values and whatever [From] and [To]; the
    messages the mirror loop publishes, and so the message the status
    endpoint shows once the loop has started, are the ten fixed labels
    and the label "Synced - nothing to push: " followed by the recorded
    HEAD identifier, which is the empty string or the content a read of
    the ref file returned. *)
Theorem stored_message_is_the_label :
  (forall ok msg v w, statusMessage (self (snd (status ok msg v w))) = msg) /\
  (forall answer file fuel j t0,
     let w := snd (mirror answer file fuel (boot j t0)) in
     Forall (phaseEvent file) (trace w) /\
     self w = published (trace w) j /\
     phaseMessage file (statusMessage (self w))).
Proof.
  split; [reflexivity|].
  intros answer file fuel j t0 w.
  destruct (mirror_head answer file fuel j t0) as (rest & Ht & Hs & Hp).
  assert (Hall : Forall (phaseEvent file) (firstPublication j t0 ++ rest)).
  { apply Forall_app. split; [|exact Hp].
    constructor; [cbn; left; cbn; tauto|].
    constructor; [exact I | constructor]. }
  subst w. rewrite Ht. split; [exact Hall|]. split; [exact Hs|].
  rewrite Hs, published_app. apply published_phase; [exact Hp|].
  cbn. left. cbn. tauto.
Qed.

(** A job whose [From] is a path that happens to read like the first
    message of the loop. *)
Lemma stored_message_not_redacted :
  let j := newJob "a" "Cloning" "repo-y" in
  let w := snd (ok "Cloning" [] (boot j 0%Z)) in
  statusMessage (self w) = "Cloning" /\
  Bytes.Contains (statusMessage (self w)) (From (self w)) = true /\
  trace w = [SetStatus true "Cloning" 0%Z; Log ("OK: <REDACTED (FROM)>" ++ nl)%string].
Proof. repeat split. Qed.

(** The two passes of [redact] leave no [From] and no [To]. *)
Lemma redact_free (from to b : string) :
  Bytes.mem "<" from = false -> Bytes.mem ">" from = false ->
  Bytes.mem "<" to = false -> Bytes.mem ">" to = false ->
  Bytes.Contains REDACTED_FROM from = false ->
  Bytes.Contains REDACTED_TO from = false ->
  Bytes.Contains REDACTED_TO to = false ->
  Bytes.Contains (redact from to b) from = false /\
  Bytes.Contains (redact from to b) to = false.
Proof.
  intros Hf1 Hf2 Ht1 Ht2 Hff Hft Htt.
  unfold redact, Bytes.Replace.
  destruct from as [|f0 from']; [discriminate|].
  destruct to as [|t0 to']; [discriminate|].
  set (from := String f0 from') in *. set (to := String t0 to') in *.
  assert (H1 : Bytes.Contains (Bytes.replace_from from REDACTED_FROM 0 b) from = false).
  { apply (replace_from_free from "REDACTED (FROM)" from "<" ">" Hf1 Hf2 Hff).
    apply guarded_self. }
  split.
  - apply (replace_from_free to "REDACTED (TO)" from "<" ">" Hf1 Hf2 Hft).
    apply guarded_free. exact H1.
  - apply (replace_from_free to "REDACTED (TO)" to "<" ">" Ht1 Ht2 Htt).
    apply guarded_self.
Qed.

(** C8, amended: when [From] and [To] hold neither '<' nor '>', [From]
    occurs in neither placeholder and [To] does not occur in the
    placeholder for [To], the text a status update hands to the logger
    after "OK: " or "FAIL: " is the buffer with the instances of [From]
    and then those of [To] replaced, and holds no occurrence of [From]
    and none of [To]. *)
Theorem redaction_hides_endpoints (ok : bool) (msg : string) (v : list Value)
    (w : World) :
  let from := From (self w) in
  let to := To (self w) in
  Bytes.mem "<" from = false -> Bytes.mem ">" from = false ->
  Bytes.mem "<" to = false -> Bytes.mem ">" to = false ->
  Bytes.Contains REDACTED_FROM from = false ->
  Bytes.Contains REDACTED_TO from = false ->
  Bytes.Contains REDACTED_TO to = false ->
  exists b,
    trace (snd (status ok msg v w)) =
      trace w ++ [SetStatus ok msg (now w);
                  Log ((if ok then "OK: " else "FAIL: ") ++ b)%string] /\
    b = Bytes.Replace (Bytes.Replace (buffer msg v) from REDACTED_FROM) to REDACTED_TO /\
    Bytes.Contains b from = false /\
    Bytes.Contains b to = false.
Proof.
  intros from to Hf1 Hf2 Ht1 Ht2 Hff Hft Htt.
  exists (redact from to (buffer msg v)).
  split; [reflexivity|]. split; [reflexivity|].
  apply redact_free; assumption.
Qed.

(** A job cloned from a local directory named FROM: the failure text of
    git names the directory, and the placeholder put in its place holds
    the name again. *)
Lemma redaction_placeholder_holds_From :
  let j := newJob "a" "FROM" "repo-y" in
  let v := [Error "exit status 128";
            Output ("fatal: repository 'FROM' does not exist" ++ nl)%string] in
  let text := ("FAIL: Cloning" ++ nl ++ "exit status 128" ++ nl ++
               "fatal: repository '<REDACTED (FROM)>' does not exist" ++ nl ++ nl)%string in
  From j <> "" /\ To j <> "" /\
  trace (snd (statusErr "Cloning" v (boot j 0%Z))) =
    [SetStatus false "Cloning" 0%Z; Log text] /\
  Bytes.Contains text (From j) = true.
Proof.
  cbv zeta. split; [discriminate|]. split; [discriminate|].
  split; vm_compute; reflexivity.
Qed.

(** C1: the response to a status request has code 500 exactly when some
    job has [statusOK] false or a [statusTime] more than fifteen minutes
    before the reading of the clock made for it, and code 200 otherwise;
    in both cases the body ends with one block per job, in the order of
    the job list, holding the identifier, the OK flag, the time stamp
    and the message. *)
Theorem statusz_code_and_blocks (Quote : string -> string)
    (timeString : Time.Time -> string) (clock : nat -> Time.Time) (jobs : list job) :
  let w := statusz Quote timeString clock jobs Http.fresh in
  (Http.StatusCode w = 500%Z <->
   exists i j, nth_error jobs i = Some j /\
     (statusOK j = false \/
      (statusTime j + 15 * Time.Minute < clock i)%Z)) /\
  (Http.StatusCode w <> 500%Z -> Http.StatusCode w = 200%Z) /\
  Http.body w =
    (staleNotes Quote clock 0 jobs ++
     String.concat "" (map (fun j =>
       "---- repo " ++ ID j ++ " ----" ++ nl ++
       "OK " ++ (if statusOK j then "true" else "false") ++ nl ++
       timeString (statusTime j) ++ nl ++
       statusMessage j ++ nl) jobs))%string.
Proof.
  intros w.
  assert (Hcode : Http.StatusCode w = if anyBad clock 0 jobs then 500%Z else 200%Z)
    by apply statusz_code.
  split; [|split].
  - rewrite Hcode. rewrite <- (anyBad_spec clock 0 jobs).
    destruct (anyBad clock 0 jobs); split; (reflexivity || discriminate).
  - rewrite Hcode. destruct (anyBad clock 0 jobs); [congruence | reflexivity].
  - unfold w, statusz. rewrite renders_body, check_body. reflexivity.
Qed.

(* ================================================================== *)
(** ** Startup *)
(* ================================================================== *)

Section StartupFacts.

Variable PAV : string -> string + string.

Lemma reconcile_plain s :
  Bytes.HasPrefix s "metadata:" = false -> reconcile PAV s = Ok s.
Proof. unfold reconcile. intros ->. reflexivity. Qed.

(** What [start] has checked of a job [j] before it starts the loop of
    [s]. *)
Lemma start_checked js :
  Forall2 (checked PAV) (fst (start PAV js))
          (firstn (List.length (fst (start PAV js))) js).
Proof.
  induction js as [|j rest IH]; [constructor|].
  cbn [start].
  destruct (String.eqb (ID j) "") eqn:EI; [constructor|].
  destruct (String.eqb (From j) "") eqn:EF; [constructor|].
  destruct (String.eqb (To j) "") eqn:ET; [constructor|].
  cbn [orb].
  destruct (reconcile PAV (From j)) as [from|] eqn:RF; [|constructor].
  destruct (reconcile PAV (To j)) as [to|] eqn:RT; [|constructor].
  destruct (start PAV rest) as [started f] eqn:ES.
  cbn [fst List.length firstn] in *. constructor; [|exact IH].
  apply String.eqb_neq in EI, EF, ET.
  unfold checked. cbn [ID From To statusOK]. repeat split; auto.
  - intros Hp. rewrite (reconcile_plain _ Hp) in RF. injection RF as <-. exact EF.
  - intros Hp. rewrite (reconcile_plain _ Hp) in RT. injection RT as <-. exact ET.
Qed.

(** A job with an empty field stops [start] no later than at its
    place. *)
Lemma start_rejects pre j post :
  ID j = "" \/ From j = "" \/ To j = "" ->
  snd (start PAV (pre ++ j :: post)) <> None /\
  List.length (fst (start PAV (pre ++ j :: post))) <= List.length pre.
Proof.
  intros Hbad. induction pre as [|j0 pre IH]; cbn [app start].
  - destruct (String.eqb (ID j) "") eqn:EI; [cbn; split; [discriminate|lia]|].
    destruct (String.eqb (From j) "") eqn:EF; [cbn; split; [discriminate|lia]|].
    destruct (String.eqb (To j) "") eqn:ET; [cbn; split; [discriminate|lia]|].
    apply String.eqb_neq in EI, EF, ET. tauto.
  - destruct (String.eqb (ID j0) ""); [cbn; split; [discriminate|lia]|].
    destruct (String.eqb (From j0) "" || String.eqb (To j0) "");
      [cbn; split; [discriminate|lia]|].
    destruct (reconcile PAV (From j0)); [|cbn; split; [discriminate|lia]].
    destruct (reconcile PAV (To j0)); [|cbn; split; [discriminate|lia]].
    destruct (start PAV (pre ++ j :: post)) as [started f].
    cbn [fst snd List.length] in *. split; [tauto | lia].
Qed.

(** Jobs that pass the checks are all started, in order. *)
Lemma start_all js :
  Forall (fun j => ID j <> "" /\ From j <> "" /\ To j <> "" /\
                   (exists v, reconcile PAV (From j) = Ok v) /\
                   (exists v, reconcile PAV (To j) = Ok v)) js ->
  exists started,
    start PAV js = (started, None) /\ map ID started = map ID js.
Proof.
  induction js as [|j rest IH]; intros H.
  - exists []. split; reflexivity.
  - inversion H as [|? ? (HI & HF & HT & (from & RF) & (to & RT)) Hrest]; subst.
    destruct (IH Hrest) as (started & ES & Hmap).
    apply String.eqb_neq in HI, HF, HT.
    cbn [start]. rewrite HI, HF, HT, RF, RT, ES. cbn [orb].
    eexists. split; [reflexivity|]. cbn [map ID]. now rewrite Hmap.
Qed.

End StartupFacts.

(** C5, amended: [main] does not compare the identifiers of the jobs.
    When every job of the list has a non-empty [ID], [From] and [To]
    and its [metadata:] references resolve, a mirror loop is started for
    every job, in order and with no fatal error, also when two jobs have
    the same [ID]; such jobs then work in the same directory. *)
Theorem duplicate_ids_are_started (PAV : string -> string + string) (js : list job) :
  Forall (fun j => ID j <> "" /\ From j <> "" /\ To j <> "" /\
                   (exists v, reconcile PAV (From j) = Ok v) /\
                   (exists v, reconcile PAV (To j) = Ok v)) js ->
  exists started,
    start PAV js = (started, None) /\
    map ID started = map ID js /\
    map dir started = map dir js /\
    (~ NoDup (map ID js) -> ~ NoDup (map dir started)).
Proof.
  intros H. destruct (start_all PAV js H) as (started & E & Hmap).
  exists started. split; [exact E|]. split; [exact Hmap|].
  assert (Hdir : forall l : list job, map dir l = map (fun i => "repo-" ++ i)%string (map ID l)).
  { intros l. rewrite map_map. reflexivity. }
  split.
  - rewrite !Hdir. now rewrite Hmap.
  - intros Hdup Hnd. apply Hdup. rewrite <- Hmap.
    rewrite Hdir in Hnd. eapply NoDup_map_inv. exact Hnd.
Qed.

(** C6, amended: every job whose mirror loop is started was configured
    with a non-empty [ID], [From] and [To]; a [From] or [To] configured
    without the prefix [metadata:] is the value the loop works with,
    hence non-empty, and one with the prefix is replaced by the value
    the metadata service returned; a job with an empty configured field
    ends the start-up with a fatal error before its own loop and the
    loops of the jobs after it are started. *)
Theorem started_jobs_were_checked (PAV : string -> string + string) (js : list job) :
  let started := fst (start PAV js) in
  let fatal := snd (start PAV js) in
  Forall2 (fun s j =>
             ID s = ID j /\ ID j <> "" /\ From j <> "" /\ To j <> "" /\
             reconcile PAV (From j) = Ok (From s) /\
             reconcile PAV (To j) = Ok (To s) /\
             (Bytes.HasPrefix (From j) "metadata:" = false -> From s = From j) /\
             (Bytes.HasPrefix (To j) "metadata:" = false -> To s = To j))
          started (firstn (List.length started) js) /\
  (forall pre j post,
     js = pre ++ j :: post ->
     ID j = "" \/ From j = "" \/ To j = "" ->
     fatal <> None /\ List.length started <= List.length pre).
Proof.
  intros started fatal. split.
  - pose proof (start_checked PAV js) as H. fold started in H.
    induction H as [|s j ss jj Hc _ IH]; constructor; [|exact IH].
    destruct Hc as (HI & _ & HIj & HF & HT & RF & RT & _ & _).
    repeat split; auto.
    + intros Hp. rewrite (reconcile_plain PAV _ Hp) in RF. congruence.
    + intros Hp. rewrite (reconcile_plain PAV _ Hp) in RT. congruence.
  - intros pre j post -> Hbad. apply start_rejects. exact Hbad.
Qed.

(** C9: with [REPOS] empty and [FROM_REPO] and [TO_REPO] both set, the
    job list is one job, whose [ID] is "default", whose [From] is the
    value of [FROM_REPO] and whose [To] is the value of [TO_REPO] (its
    status fields are the zero values); with [REPOS] set, the list
    depends on [REPOS] only, whatever [FROM_REPO] and [TO_REPO]; and a
    [REPOS] of the form [metadata:key] is replaced by the metadata value
    before it is parsed, while any other [REPOS] is parsed as it is,
    each decoded object giving a job with its [ID], [From] and [To]. *)
Theorem job_list_source (Getenv : string -> string)
    (PAV : string -> string + string)
    (Unmarshal : string -> list Descriptor + string) :
  (Getenv "REPOS" = "" -> Getenv "FROM_REPO" <> "" -> Getenv "TO_REPO" <> "" ->
   load Getenv PAV Unmarshal =
     Ok [mkJob "default" (Getenv "FROM_REPO") (Getenv "TO_REPO") Time.zero false ""] /\
   exists j,
     load Getenv PAV Unmarshal = Ok [j] /\
     ID j = "default" /\ From j = Getenv "FROM_REPO" /\ To j = Getenv "TO_REPO") /\
  (Getenv "REPOS" <> "" ->
   forall Getenv' : string -> string,
     Getenv' "REPOS" = Getenv "REPOS" ->
     load Getenv' PAV Unmarshal = load Getenv PAV Unmarshal /\
     main Getenv' PAV Unmarshal = main Getenv PAV Unmarshal) /\
  (Getenv "REPOS" <> "" ->
   Bytes.HasPrefix (Getenv "REPOS") "metadata:" = false ->
   load Getenv PAV Unmarshal =
     match Unmarshal (Getenv "REPOS") with
     | inl ds =>
         Ok (map (fun d => mkJob (descID d) (descFrom d) (descTo d) Time.zero false "")
                 ds)
     | inr e => Die (CouldNotParse e)
     end) /\
  (forall key val,
     Getenv "REPOS" = ("metadata:" ++ key)%string ->
     PAV key = inl val ->
     load Getenv PAV Unmarshal =
       match Unmarshal val with
       | inl ds =>
           Ok (map (fun d => mkJob (descID d) (descFrom d) (descTo d) Time.zero false "")
                   ds)
       | inr e => Die (CouldNotParse e)
       end).
Proof.
  split; [|split; [|split]].
  - intros HR HF HT.
    assert (E : load Getenv PAV Unmarshal =
                Ok [mkJob "default" (Getenv "FROM_REPO") (Getenv "TO_REPO")
                          Time.zero false ""]).
    { unfold load. rewrite HR.
      apply String.eqb_neq in HF, HT. cbn. rewrite HF, HT. reflexivity. }
    split; [exact E|].
    eexists. split; [exact E|]. repeat split.
  - intros HR Getenv' HE.
    assert (HL : load Getenv' PAV Unmarshal = load Getenv PAV Unmarshal).
    { unfold load. rewrite HE. apply String.eqb_neq in HR. rewrite HR. reflexivity. }
    split; [exact HL|]. unfold main. now rewrite HL.
  - intros HR HP. unfold load. apply String.eqb_neq in HR. rewrite HR. cbn [negb].
    unfold reconcile. rewrite HP. cbn [negb].
    destruct (Unmarshal (Getenv "REPOS")); reflexivity.
  - intros key val HR HV. unfold load. rewrite HR. cbn [append String.eqb negb].
    unfold reconcile. cbn. rewrite HV, HasPrefix_nil. cbn.
    destruct (Unmarshal val); reflexivity.
Qed.

Lemma Forall2_In_left {A B} (R : A -> B -> Prop) l l' a :
  Forall2 R l l' -> In a l -> exists b, In b l' /\ R a b.
Proof.
  induction 1 as [|x y l l' Hxy _ IH]; intros Hin; [destruct Hin|].
  destruct Hin as [<-|Hin].
  - exists y. split; [now left | exact Hxy].
  - destruct (IH Hin) as (b & Hb & HR). exists b. split; [now right | exact HR].
Qed.

(** C10, amended: every job of a configuration that passes the
    start-up checks is started, with its [ID], with [From] and [To] as
    [reconcile] returns them and with [statusOK] true; the first thing
    [mirror] does, before any command, is to publish an OK status
    "Cloning"; from then until the first clone returns the status
    endpoint shows the job with OK true and the message "Cloning", and
    it answers 200 for the job exactly while that publication is not
    older than fifteen minutes, 500 afterwards; a first clone that fails
    leaves the job with [statusOK] false and the message "Cloning", and
    the endpoint answers 500. *)
Theorem healthy_before_first_clone
    (Getenv : string -> string) (PAV : string -> string + string)
    (Unmarshal : string -> list Descriptor + string) (js : list job)
    (answer file : nat -> Reply) (fuel : nat) (j : job) (t0 : Time.Time)
    (Quote : string -> string) (timeString : Time.Time -> string)
    (clock : nat -> Time.Time) :
  (load Getenv PAV Unmarshal = Ok js ->
   Forall (fun c => ID c <> "" /\ From c <> "" /\ To c <> "" /\
                    (exists v, reconcile PAV (From c) = Ok v) /\
                    (exists v, reconcile PAV (To c) = Ok v)) js ->
   snd (main Getenv PAV Unmarshal) = None /\
   Forall2 (fun s c => ID s = ID c /\
                       reconcile PAV (From c) = Ok (From s) /\
                       reconcile PAV (To c) = Ok (To s) /\
                       statusOK s = true)
           (fst (main Getenv PAV Unmarshal)) js) /\
  (exists rest,
     trace (snd (mirror answer file fuel (boot j t0))) =
       SetStatus true "Cloning" t0
       :: Log ("OK: " ++ redact (From j) (To j) (buffer "Cloning" []))%string
       :: rest) /\
  (let j1 := self (snd (ok "Cloning" [] (boot j t0))) in
   let w := statusz Quote timeString clock [j1] Http.fresh in
   statusOK j1 = true /\ statusMessage j1 = "Cloning" /\ statusTime j1 = t0 /\
   Http.body w =
     (staleNotes Quote clock 0 [j1] ++
      "---- repo " ++ ID j ++ " ----" ++ nl ++
      "OK true" ++ nl ++ timeString t0 ++ nl ++ "Cloning" ++ nl)%string /\
   (Http.StatusCode w = 200%Z <-> (clock 0%nat <= t0 + 15 * Time.Minute)%Z) /\
   (Http.StatusCode w = 500%Z <-> (t0 + 15 * Time.Minute < clock 0%nat)%Z)) /\
  (failed (answer 0) = true ->
   let j2 := self (snd (cloning answer 1 (boot j t0))) in
   statusOK j2 = false /\ statusMessage j2 = "Cloning" /\
   Http.StatusCode (statusz Quote timeString clock [j2] Http.fresh) = 500%Z).
Proof.
  split; [|split; [|split]].
  - intros Hload Hvalid. unfold main. rewrite Hload.
    destruct (start_all PAV js Hvalid) as (started & E & Hmap).
    pose proof (start_checked PAV js) as Hc. rewrite E in Hc |- *. cbn [fst snd] in *.
    split; [reflexivity|].
    assert (Hlen : List.length started = List.length js).
    { rewrite <- (length_map ID started), Hmap. apply length_map. }
    rewrite Hlen, firstn_all in Hc.
    eapply Forall2_impl; [|exact Hc].
    intros s c (HI & Hok & _ & _ & _ & RF & RT & _). repeat split; assumption.
  - destruct (mirror_head answer file fuel j t0) as (rest & Ht & _).
    exists rest. exact Ht.
  - cbv zeta. split; [reflexivity|]. split; [reflexivity|]. split; [reflexivity|].
    split.
    + unfold statusz. rewrite renders_body, check_body.
      cbn [map String.concat block ok status self snd boot ID statusOK statusTime
           statusMessage showBool Http.SetHeader Http.body].
      rewrite !append_assoc. reflexivity.
    + rewrite statusz_code. cbn [anyBad self snd ok status statusOK negb orb].
      unfold stale, Time.After, Time.Add. cbn [statusTime]. rewrite orb_false_r.
      change (now (boot j t0)) with t0.
      destruct (Z.ltb_spec (t0 + 15 * Time.Minute) (clock 0%nat)) as [H|H];
        split; split; intros; first [reflexivity | discriminate | lia].
  - intros Hfail. cbn zeta.
    assert (Hw0 : atAttempt answer j t0 0 (snd (ok "Cloning" [] (boot j t0))))
      by (repeat split).
    destruct (clone_fails answer j t0 0 _ Hw0 Hfail) as (w1 & E & _ & _ & Hok & Hmsg & _).
    assert (Ecl : cloning answer 1 (boot j t0) = (inl tt, w1)).
    { unfold cloning, bind. cbn [iter].  unfold bind.
      change (ok "Cloning" [] (boot j t0))
        with (tt, snd (ok "Cloning" [] (boot j t0))).
      cbn iota. rewrite E. reflexivity. }
    rewrite Ecl. cbn [snd]. split; [exact Hok|]. split; [exact Hmsg|].
    rewrite statusz_code. cbn [anyBad]. rewrite Hok. reflexivity.
Qed.

(* ================================================================== *)
(** ** The theorems on sample inputs *)
(* ================================================================== *)

(** Two jobs with the identifier "a": both loops are started, in the
    same directory, and the process goes on to serve requests. *)
Lemma duplicate_ids_not_fatal :
  let ds := [mkDescriptor "a" "repo-x" "repo-y"; mkDescriptor "a" "repo-z" "repo-w"] in
  main (Sample.getenv [("REPOS", Sample.json ds)]) (Sample.metadata [])
       (Sample.unmarshal ds) =
  ([mkJob "a" "repo-x" "repo-y" Time.zero true "";
    mkJob "a" "repo-z" "repo-w" Time.zero true ""], None).
Proof. vm_compute. reflexivity. Qed.

Lemma duplicate_ids_are_started_sample :
  let js := [newJob "a" "repo-x" "repo-y"; newJob "a" "repo-z" "repo-w"] in
  exists started,
    start (Sample.metadata []) js = (started, None) /\
    map ID started = ["a"; "a"] /\
    map dir started = ["repo-a"; "repo-a"].
Proof.
  cbv zeta.
  destruct (duplicate_ids_are_started (Sample.metadata [])
              [newJob "a" "repo-x" "repo-y"; newJob "a" "repo-z" "repo-w"])
    as (started & E & HI & HD & _).
  - repeat constructor; try discriminate; eexists; reflexivity.
  - exists started. split; [exact E|]. split; [exact HI | exact HD].
Defined.

(** A [From] given as a metadata reference whose value is empty: the
    loop of the job is started with an empty [From]. *)
Lemma empty_metadata_value_is_started :
  let ds := [mkDescriptor "a" "metadata:src" "repo-y"] in
  main (Sample.getenv [("REPOS", Sample.json ds)]) (Sample.metadata [("src", "")])
       (Sample.unmarshal ds) =
  ([mkJob "a" "" "repo-y" Time.zero true ""], None).
Proof. vm_compute. reflexivity. Qed.

(** A valid job followed by one with an empty [To]: the first loop has
    been started when the fatal error ends the process. *)
Example loop_started_before_fatal :
  start (Sample.metadata []) [newJob "a" "repo-x" "repo-y"; newJob "b" "repo-z" ""] =
  ([mkJob "a" "repo-x" "repo-y" Time.zero true ""],
   Some (EmptyFromOrTo (newJob "b" "repo-z" ""))).
Proof. reflexivity. Qed.

Lemma started_jobs_were_checked_sample :
  let js := [newJob "a" "repo-x" "repo-y"; newJob "b" "repo-z" ""] in
  snd (start (Sample.metadata []) js) <> None /\
  List.length (fst (start (Sample.metadata []) js)) <= 1.
Proof.
  cbv zeta.
  destruct (started_jobs_were_checked (Sample.metadata [])
              [newJob "a" "repo-x" "repo-y"; newJob "b" "repo-z" ""]) as (_ & H).
  apply (H [newJob "a" "repo-x" "repo-y"] (newJob "b" "repo-z" "") []).
  - reflexivity.
  - right. right. reflexivity.
Defined.

Lemma job_list_source_sample :
  (let r := load (Sample.getenv [("FROM_REPO", "repo-x"); ("TO_REPO", "repo-y")])
                 (Sample.metadata []) (Sample.unmarshal []) in
   r = Ok [mkJob "default" "repo-x" "repo-y" Time.zero false ""] /\
   exists j, r = Ok [j] /\ ID j = "default" /\ From j = "repo-x" /\ To j = "repo-y") /\
  (let ds := [mkDescriptor "a" "repo-x" "repo-y"] in
   main (Sample.getenv [("REPOS", Sample.json ds); ("FROM_REPO", "repo-u");
                        ("TO_REPO", "repo-v")])
        (Sample.metadata []) (Sample.unmarshal ds) =
   main (Sample.getenv [("REPOS", Sample.json ds)])
        (Sample.metadata []) (Sample.unmarshal ds) /\
   main (Sample.getenv [("REPOS", Sample.json ds)])
        (Sample.metadata []) (Sample.unmarshal ds) =
   ([mkJob "a" "repo-x" "repo-y" Time.zero true ""], None)) /\
  (let ds := [mkDescriptor "a" "repo-x" "repo-y"] in
   load (Sample.getenv [("REPOS", "metadata:repos")])
        (Sample.metadata [("repos", Sample.json ds)]) (Sample.unmarshal ds) =
   Ok [mkJob "a" "repo-x" "repo-y" Time.zero false ""]).
Proof.
  cbv zeta. split; [|split].
  - refine (proj1 (job_list_source
             (Sample.getenv [("FROM_REPO", "repo-x"); ("TO_REPO", "repo-y")])
             (Sample.metadata []) (Sample.unmarshal [])) _ _ _);
      [reflexivity | discriminate | discriminate].
  - split; [|vm_compute; reflexivity].
    refine (proj2 (proj1 (proj2 (job_list_source
             (Sample.getenv [("REPOS", Sample.json [mkDescriptor "a" "repo-x" "repo-y"])])
             (Sample.metadata [])
             (Sample.unmarshal [mkDescriptor "a" "repo-x" "repo-y"]))) _ _ _));
      [discriminate | reflexivity].
  - apply (proj2 (proj2 (proj2 (job_list_source
             (Sample.getenv [("REPOS", "metadata:repos")])
             (Sample.metadata [("repos", Sample.json [mkDescriptor "a" "repo-x" "repo-y"])])
             (Sample.unmarshal [mkDescriptor "a" "repo-x" "repo-y"]))))
           "repos" (Sample.json [mkDescriptor "a" "repo-x" "repo-y"]));
      reflexivity.
Defined.

(** The scenario of the specification: the first clone of job "a"
    fails with exit status 128 and the output "auth error", the second
    succeeds. *)
Lemma clone_retries_sample :
  let answer := Sample.replies [Sample.failure 3 "auth error" "exit status 128";
                                Sample.success 40 "Cloning into 'repo-a'..."] in
  (forall i, i < 1 -> failed (answer i) = true) /\
  failed (answer 1) = false /\
  exists w',
    cloning answer 2 (boot Sample.jobA 0%Z) = (inr tt, w') /\
    List.length (filter isClone (trace w')) = 2 /\
    (attemptTime answer 0%Z 0 + 10 * Time.Second <= attemptTime answer 0%Z 1)%Z.
Proof.
  cbv zeta.
  assert (H1 : forall i, i < 1 ->
            failed (Sample.replies [Sample.failure 3 "auth error" "exit status 128";
                                    Sample.success 40 "Cloning into 'repo-a'..."] i) = true).
  { intros i Hi. destruct i; [reflexivity | lia]. }
  split; [exact H1|]. split; [reflexivity|].
  destruct (clone_retries
              (Sample.replies [Sample.failure 3 "auth error" "exit status 128";
                               Sample.success 40 "Cloning into 'repo-a'..."])
              (Sample.replies []) Sample.jobA 0%Z 1 2 H1 eq_refl (le_n 2))
    as (w' & E & _ & Hn & Ht & _).
  exists w'. split; [exact E|]. split; [exact Hn|]. apply Ht. lia.
Defined.

Example clone_scenario_status :
  let answer := Sample.replies [Sample.failure 3 "auth error" "exit status 128";
                                Sample.success 40 "Cloning into 'repo-a'..."] in
  let j1 := self (snd (cloning answer 1 (boot Sample.jobA 0%Z))) in
  let j2 := self (snd (cloning answer 2 (boot Sample.jobA 0%Z))) in
  (statusOK j1, statusMessage j1) = (false, "Cloning") /\
  (statusOK j2, statusMessage j2) = (true, "Cloned").
Proof. split; reflexivity. Qed.

Lemma sync_nothing_to_push_sample :
  let answer := Sample.replies [Sample.success 2 "Already up-to-date."] in
  let file := Sample.replies [Sample.success 0 Sample.sha1] in
  exists w' evs t,
    sync_body answer file Sample.sha1 (boot Sample.jobA 0%Z) = (inl Sample.sha1, w') /\
    trace w' = evs /\ existsb isPush evs = false /\
    statusMessage (self w') = ("Synced - nothing to push: " ++ Sample.sha1)%string /\
    statusTime (self w') = t.
Proof.
  cbv zeta.
  destruct (sync_nothing_to_push
              (Sample.replies [Sample.success 2 "Already up-to-date."])
              (Sample.replies [Sample.success 0 Sample.sha1])
              Sample.sha1 (boot Sample.jobA 0%Z) eq_refl eq_refl eq_refl)
    as (w' & evs & t & E & Ht & Hp & _ & _ & Hm & Hst).
  exists w', evs, t. repeat split; assumption.
Defined.


Lemma redaction_hides_endpoints_sample :
  let j := newJob "a" "https://token@github.com/a/b" "https://token@example.org/b" in
  let v := [Error "exit status 128";
            Output "fatal: unable to access 'https://token@example.org/b/'"] in
  exists b,
    trace (snd (statusErr "Push" v (boot j 0%Z))) =
      [SetStatus false "Push" 0%Z; Log ("FAIL: " ++ b)%string] /\
    b = ("Push" ++ nl ++ "exit status 128" ++ nl ++
         "fatal: unable to access '<REDACTED (TO)>/'" ++ nl)%string /\
    Bytes.Contains b (From j) = false /\ Bytes.Contains b (To j) = false.
Proof.
  cbv zeta.
  destruct (redaction_hides_endpoints false "Push"
              [Error "exit status 128";
               Output "fatal: unable to access 'https://token@example.org/b/'"]
              (boot (newJob "a" "https://token@github.com/a/b"
                            "https://token@example.org/b") 0%Z)
              eq_refl eq_refl eq_refl eq_refl eq_refl eq_refl eq_refl)
    as (b & Ht & Hb & Hf & Hto).
  exists b. split; [exact Ht|]. split; [|split; [exact Hf | exact Hto]].
  rewrite Hb. vm_compute. reflexivity.
Defined.

(** A first clone that takes twenty minutes: a request made sixteen
    minutes after the loop has published "Cloning", while the clone is
    still running, is answered 500 although the job shows OK true. *)
Lemma slow_first_clone_answers_500 :
  let answer := Sample.replies [Sample.success 1200 "Cloning into 'repo-a'..."] in
  let j1 := self (snd (ok "Cloning" [] (boot Sample.jobA 0%Z))) in
  let w := statusz (fun s => Sample.quote ++ s ++ Sample.quote)%string
                   (fun _ => "1970-01-01 00:00:00 +0000 UTC")
                   (fun _ => 16 * Time.Minute)%Z [j1] Http.fresh in
  now (snd (cloning answer 1 (boot Sample.jobA 0%Z))) = (20 * Time.Minute)%Z /\
  (statusOK j1, statusMessage j1, statusTime j1) = (true, "Cloning", 0%Z) /\
  Http.StatusCode w = 500%Z /\
  Http.body w = ("Repo " ++ Sample.quote ++ "a" ++ Sample.quote ++
                 " possibly not fresh" ++ nl ++
                 "---- repo a ----" ++ nl ++ "OK true" ++ nl ++
                 "1970-01-01 00:00:00 +0000 UTC" ++ nl ++
                 "Cloning" ++ nl)%string.
Proof. vm_compute. repeat split. Qed.

Lemma healthy_before_first_clone_sample :
  let ds := [mkDescriptor "a" "repo-x" "repo-y"] in
  let started := main (Sample.getenv [("REPOS", Sample.json ds)]) (Sample.metadata [])
                      (Sample.unmarshal ds) in
  let answer := Sample.replies [Sample.failure 3 "auth error" "exit status 128"] in
  let j1 := self (snd (ok "Cloning" [] (boot Sample.jobA 0%Z))) in
  let j2 := self (snd (cloning answer 1 (boot Sample.jobA 0%Z))) in
  (snd started = None /\
   Forall2 (fun s c => ID s = ID c /\
                       reconcile (Sample.metadata []) (From c) = Ok (From s) /\
                       reconcile (Sample.metadata []) (To c) = Ok (To s) /\
                       statusOK s = true)
           (fst started) [newJob "a" "repo-x" "repo-y"]) /\
  fst started = [Sample.jobA] /\
  (exists rest,
     trace (snd (mirror answer (Sample.replies []) 1 (boot Sample.jobA 0%Z))) =
       SetStatus true "Cloning" 0%Z :: Log ("OK: Cloning" ++ nl)%string :: rest) /\
  Http.StatusCode (statusz (fun s => s) (fun _ => "") (fun _ => 60 * Time.Second)%Z
                           [j1] Http.fresh) = 200%Z /\
  statusOK j2 = false /\ statusMessage j2 = "Cloning" /\
  Http.StatusCode (statusz (fun s => s) (fun _ => "") (fun _ => 60 * Time.Second)%Z
                           [j2] Http.fresh) = 500%Z.
Proof.
  cbv zeta.
  destruct (healthy_before_first_clone
              (Sample.getenv [("REPOS", Sample.json [mkDescriptor "a" "repo-x" "repo-y"])])
              (Sample.metadata []) (Sample.unmarshal [mkDescriptor "a" "repo-x" "repo-y"])
              [newJob "a" "repo-x" "repo-y"]
              (Sample.replies [Sample.failure 3 "auth error" "exit status 128"])
              (Sample.replies []) 1 Sample.jobA 0%Z
              (fun s => s) (fun _ => "") (fun _ => 60 * Time.Second)%Z)
    as (Hstart & Hfirst & (_ & _ & _ & _ & H200 & _) & H500).
  split; [|split; [|split; [|split]]].
  - apply Hstart; [reflexivity|].
    repeat constructor; try discriminate; eexists; reflexivity.
  - reflexivity.
  - exact Hfirst.
  - apply H200. vm_compute. discriminate.
  - apply H500. reflexivity.
Defined.

Lemma statusz_code_and_blocks_sample :
  let clock := fun _ : nat => (20 * Time.Minute)%Z in
  let fresh := mkJob "a" "repo-x" "repo-y" (10 * Time.Minute)%Z true "Synced - pushed" in
  let old := mkJob "b" "repo-z" "repo-w" (2 * Time.Minute)%Z true "Cloned" in
  Http.StatusCode (statusz (fun s => s) (fun _ => "") clock [fresh] Http.fresh) = 200%Z /\
  Http.StatusCode (statusz (fun s => s) (fun _ => "") clock [fresh; old] Http.fresh) = 500%Z.
Proof.
  cbv zeta. split.
  - apply (statusz_code_and_blocks (fun s => s) (fun _ => "")
             (fun _ => 20 * Time.Minute)%Z
             [mkJob "a" "repo-x" "repo-y" (10 * Time.Minute)%Z true "Synced - pushed"]).
    vm_compute. discriminate.
  - apply (statusz_code_and_blocks (fun s => s) (fun _ => "")
             (fun _ => 20 * Time.Minute)%Z
             [mkJob "a" "repo-x" "repo-y" (10 * Time.Minute)%Z true "Synced - pushed";
              mkJob "b" "repo-z" "repo-w" (2 * Time.Minute)%Z true "Cloned"]).
    exists 1, (mkJob "b" "repo-z" "repo-w" (2 * Time.Minute)%Z true "Cloned").
    split; [reflexivity|]. right. vm_compute. reflexivity.
Defined.

(** A whole run: a clone that fails once, the remote set at once, then
    three iterations: a push, nothing to push, a pull that fails. *)
Example mirror_run :
  let answer := Sample.replies
    [Sample.failure 3 "auth error" "exit status 128";
     Sample.success 40 "Cloning into 'repo-a'...";
     Sample.success 0 "";
     Sample.success 2 "Updating 1a2b3c4..5f2b9e0";
     Sample.success 5 "To repo-y";
     Sample.success 1 "Everything up-to-date";
     Sample.success 2 "Already up-to-date.";
     Sample.failure 1 "fatal: unable to access" "exit status 1"] in
  let file := Sample.replies [Sample.success 0 Sample.sha1; Sample.success 0 Sample.sha1] in
  let run := mirror answer file 3 (boot Sample.jobA 0%Z) in
  fst run = Some Sample.sha1 /\
  statuses (trace (snd run)) =
    [(true, "Cloning"); (false, "Cloning"); (true, "Cloned");
     (true, "Setting remote"); (true, "Added remote");
     (true, "Synced - pushed");
     (true, ("Synced - nothing to push: " ++ Sample.sha1)%string);
     (false, "Pull")] /\
  commands (trace (snd run)) =
    [["git"; "clone"; "repo-x"; "repo-a"]; ["git"; "clone"; "repo-x"; "repo-a"];
     ["git"; "remote"; "add"; "to"; "repo-y"];
     ["git"; "pull"]; ["git"; "push"; "--all"; "to"]; ["git"; "push"; "--tags"; "to"];
     ["git"; "pull"]; ["git"; "pull"]].
Proof. vm_compute. repeat split. Qed.

(** The rate limiter lets the first iteration through at once and the
    next ones two minutes apart. *)
Example limiter_spacing :
  let w1 := snd (limitWait (boot Sample.jobA 0%Z)) in
  let w2 := snd (limitWait w1) in
  let w3 := snd (limitWait (snd (sleep (5 * Time.Minute)%Z w2))) in
  (now w1, now w2, now w3) = (0, 2 * Time.Minute, 7 * Time.Minute)%Z.
Proof. reflexivity. Qed.

(* ================================================================== *)
(** ** More on start-up *)
(* ================================================================== *)

Section StartMore.

Variable PAV : string -> string + string.

Lemma start_cons_passes j rest :
  passes PAV j = true ->
  exists s,
    startedFrom PAV s j /\
    fst (start PAV (j :: rest)) = s :: fst (start PAV rest) /\
    snd (start PAV (j :: rest)) = snd (start PAV rest).
Proof.
  unfold passes, resolves, startedFrom. intros H.
  repeat (apply andb_true_iff in H; destruct H as [H ?]).
  cbn [start].
  destruct (String.eqb (ID j) ""); [discriminate|].
  destruct (String.eqb (From j) ""); [discriminate|].
  destruct (String.eqb (To j) ""); [discriminate|]. cbn [orb].
  destruct (reconcile PAV (From j)) as [from|] eqn:EF; [|discriminate].
  destruct (reconcile PAV (To j)) as [to|] eqn:ET; [|discriminate].
  destruct (start PAV rest) as [started f]. cbn [fst snd].
  exists (mkJob (ID j) from to (statusTime j) true (statusMessage j)).
  cbn [ID From To statusTime statusOK statusMessage].
  repeat split; assumption.
Qed.

Lemma start_cons_fails j rest :
  passes PAV j = false ->
  fst (start PAV (j :: rest)) = [] /\
  exists f, snd (start PAV (j :: rest)) = Some f.
Proof.
  unfold passes, resolves. intros H. cbn [start].
  destruct (String.eqb (ID j) ""); [split; [reflexivity | eexists; reflexivity]|].
  destruct (String.eqb (From j) ""); [split; [reflexivity | eexists; reflexivity]|].
  destruct (String.eqb (To j) ""); [split; [reflexivity | eexists; reflexivity]|]. cbn [orb].
  destruct (reconcile PAV (From j)) as [from|]; [|split; [reflexivity | eexists; reflexivity]].
  destruct (reconcile PAV (To j)) as [to|]; [|split; [reflexivity | eexists; reflexivity]].
  discriminate.
Qed.

(** Jobs that pass are started one after the other, each as
    [startedFrom] describes, and the loop goes on with the rest. *)
Lemma start_passing pre : forall rest,
  forallb (passes PAV) pre = true ->
  exists ss,
    Forall2 (startedFrom PAV) ss pre /\
    fst (start PAV (pre ++ rest)) = ss ++ fst (start PAV rest) /\
    snd (start PAV (pre ++ rest)) = snd (start PAV rest).
Proof.
  induction pre as [|j pre IH]; intros rest H.
  - exists []. repeat split. constructor.
  - cbn [forallb] in H. apply andb_true_iff in H. destruct H as [Hj Hpre].
    destruct (start_cons_passes j (pre ++ rest) Hj) as (s & Hs & Ef & Es).
    destruct (IH rest Hpre) as (ss & Hss & IHf & IHs).
    exists (s :: ss). change ((j :: pre) ++ rest) with (j :: pre ++ rest).
    rewrite Ef, Es, IHf, IHs. repeat split. constructor; assumption.
Qed.

End StartMore.

(** X1: the loop of [main] ends without a fatal error exactly when every
    job has a non-empty [ID], [From] and [To] and its [metadata:]
    references resolve; the jobs whose loops have been started are then
    the configured jobs, one for one and in order, each with its [ID],
    with [From] and [To] as [reconcile] returns them, with [statusOK]
    true and with [statusTime] and [statusMessage] untouched. *)
Theorem start_succeeds_iff_all_pass (PAV : string -> string + string) (js : list job) :
  (snd (start PAV js) = None <-> forallb (passes PAV) js = true) /\
  (snd (start PAV js) = None ->
   Forall2 (fun s c =>
              ID s = ID c /\
              reconcile PAV (From c) = Ok (From s) /\
              reconcile PAV (To c) = Ok (To s) /\
              statusOK s = true /\
              statusTime s = statusTime c /\
              statusMessage s = statusMessage c)
           (fst (start PAV js)) js).
Proof.
  assert (H : (snd (start PAV js) = None <-> forallb (passes PAV) js = true)).
  { induction js as [|j rest IH]; [split; reflexivity|].
    cbn [forallb]. destruct (passes PAV j) eqn:Hj.
    - destruct (start_cons_passes PAV j rest Hj) as (s & _ & _ & Es).
      rewrite Es. cbn [andb]. exact IH.
    - destruct (start_cons_fails PAV j rest Hj) as (_ & f & Es).
      rewrite Es. cbn [andb]. split; discriminate. }
  split; [exact H|].
  intros Hn. apply H in Hn.
  destruct (start_passing PAV js [] Hn) as (ss & Hss & Hf & _).
  rewrite app_nil_r in Hf. cbn [start fst] in Hf. rewrite app_nil_r in Hf.
  rewrite Hf. exact Hss.
Qed.

Lemma start_succeeds_iff_all_pass_sample :
  let js := [newJob "a" "repo-x" "repo-y"; newJob "b" "metadata:src" "repo-w"] in
  let PAV := Sample.metadata [("src", "repo-z")] in
  snd (start PAV js) = None /\
  Forall2 (fun s c =>
             ID s = ID c /\
             reconcile PAV (From c) = Ok (From s) /\
             reconcile PAV (To c) = Ok (To s) /\
             statusOK s = true /\
             statusTime s = statusTime c /\
             statusMessage s = statusMessage c)
          (fst (start PAV js)) js /\
  fst (start PAV js) = [mkJob "a" "repo-x" "repo-y" Time.zero true "";
                        mkJob "b" "repo-z" "repo-w" Time.zero true ""].
Proof.
  cbv zeta.
  pose proof (start_succeeds_iff_all_pass (Sample.metadata [("src", "repo-z")])
                [newJob "a" "repo-x" "repo-y"; newJob "b" "metadata:src" "repo-w"])
    as [Hiff Hall].
  assert (Hn : snd (start (Sample.metadata [("src", "repo-z")])
                      [newJob "a" "repo-x" "repo-y"; newJob "b" "metadata:src" "repo-w"])
               = None) by (apply Hiff; reflexivity).
  split; [exact Hn|]. split; [exact (Hall Hn) | reflexivity].
Defined.

(** X2: the fatal error of the loop of [main] is the one of the first
    job that does not pass: a missing [ID] is reported before an empty
    [From] or [To], and these before a metadata reference that does not
    resolve; the jobs whose loops have been started are the jobs listed
    before that job, one for one and in order, each with its [ID], with
    [From] and [To] as [reconcile] returns them and with [statusOK]
    true, and no others. *)
Theorem first_failing_job_decides (PAV : string -> string + string)
    (pre : list job) (j : job) (post : list job) :
  forallb (passes PAV) pre = true ->
  passes PAV j = false ->
  let started := fst (start PAV (pre ++ j :: post)) in
  let fatal := snd (start PAV (pre ++ j :: post)) in
  Forall2 (fun s c =>
             ID s = ID c /\
             reconcile PAV (From c) = Ok (From s) /\
             reconcile PAV (To c) = Ok (To s) /\
             statusOK s = true /\
             statusTime s = statusTime c /\
             statusMessage s = statusMessage c)
          started pre /\
  (ID j = "" -> fatal = Some (MissingID j)) /\
  (ID j <> "" -> From j = "" \/ To j = "" -> fatal = Some (EmptyFromOrTo j)) /\
  (ID j <> "" -> From j <> "" -> To j <> "" ->
   (forall e, reconcile PAV (From j) = Die e -> fatal = Some e) /\
   (forall v e, reconcile PAV (From j) = Ok v -> reconcile PAV (To j) = Die e ->
                fatal = Some e)).
Proof.
  intros Hpre Hj started fatal.
  destruct (start_passing PAV pre (j :: post) Hpre) as (ss & Hss & Hf & Hs).
  destruct (start_cons_fails PAV j post Hj) as (Hnil & _).
  subst started fatal. rewrite Hf, Hs, Hnil, app_nil_r.
  split; [exact Hss|]. cbn [start]. split; [|split].
  - intros ->. reflexivity.
  - intros HI HFT. apply String.eqb_neq in HI. rewrite HI.
    destruct HFT as [-> | ->]; cbn; [reflexivity|].
    now rewrite orb_true_r.
  - intros HI HF HT. apply String.eqb_neq in HI, HF, HT. rewrite HI, HF, HT. cbn [orb].
    split.
    + intros e ->. reflexivity.
    + intros v e -> ->. reflexivity.
Qed.

Lemma first_failing_job_decides_sample :
  let PAV := Sample.metadata [] in
  let pre := [newJob "a" "repo-x" "repo-y"] in
  let bad := newJob "" "" "repo-w" in
  let r := start PAV (pre ++ bad :: [newJob "c" "repo-u" "repo-v"]) in
  snd r = Some (MissingID bad) /\
  Forall2 (fun s c =>
             ID s = ID c /\
             reconcile PAV (From c) = Ok (From s) /\
             reconcile PAV (To c) = Ok (To s) /\
             statusOK s = true /\
             statusTime s = statusTime c /\
             statusMessage s = statusMessage c)
          (fst r) pre /\
  fst r = [mkJob "a" "repo-x" "repo-y" Time.zero true ""].
Proof.
  cbv zeta.
  destruct (first_failing_job_decides (Sample.metadata [])
              [newJob "a" "repo-x" "repo-y"] (newJob "" "" "repo-w")
              [newJob "c" "repo-u" "repo-v"] eq_refl eq_refl) as (Hst & H & _).
  split; [exact (H eq_refl)|]. split; [exact Hst | reflexivity].
Defined.

(** X3: reading the job list fails with "REPOS environment variable
    must be set" exactly when [REPOS] is empty and [FROM_REPO] or
    [TO_REPO] is empty: the legacy pair counts only when both values are
    given. *)
Theorem legacy_pair_needs_both (Getenv : string -> string)
    (PAV : string -> string + string)
    (Unmarshal : string -> list Descriptor + string) :
  load Getenv PAV Unmarshal = Die ReposMustBeSet <->
  Getenv "REPOS" = "" /\ (Getenv "FROM_REPO" = "" \/ Getenv "TO_REPO" = "").
Proof.
  unfold load.
  destruct (String.eqb (Getenv "REPOS") "") eqn:ER; cbn [negb].
  - apply String.eqb_eq in ER.
    destruct (String.eqb_spec (Getenv "FROM_REPO") "") as [EF|EF];
      destruct (String.eqb_spec (Getenv "TO_REPO") "") as [ET|ET]; cbn [negb andb].
    + tauto.
    + tauto.
    + tauto.
    + split; [discriminate|]. intros [_ [H|H]]; contradiction.
  - apply String.eqb_neq in ER. split; [|tauto].
    unfold reconcile.
    destruct (negb (Bytes.HasPrefix (Getenv "REPOS") "metadata:")).
    + destruct (Unmarshal (Getenv "REPOS")); discriminate.
    + destruct (PAV _); [|discriminate].
      destruct (Unmarshal s); discriminate.
Qed.

Lemma legacy_pair_needs_both_sample :
  load (Sample.getenv [("FROM_REPO", "repo-x")]) (Sample.metadata [])
       (Sample.unmarshal []) = Die ReposMustBeSet.
Proof.
  apply (legacy_pair_needs_both (Sample.getenv [("FROM_REPO", "repo-x")])
           (Sample.metadata []) (Sample.unmarshal [])).
  split; [reflexivity | right; reflexivity].
Defined.

(** X4: once [REPOS] is set there is no way back to the legacy pair: a
    [REPOS] whose metadata reference does not resolve, or whose text
    does not parse, is a fatal error whatever [FROM_REPO] and [TO_REPO]
    hold, and a job list is obtained only from the parsed text. *)
Theorem repos_errors_are_fatal (Getenv : string -> string)
    (PAV : string -> string + string)
    (Unmarshal : string -> list Descriptor + string) :
  Getenv "REPOS" <> "" ->
  (forall f, reconcile PAV (Getenv "REPOS") = Die f ->
             load Getenv PAV Unmarshal = Die f) /\
  (forall text e, reconcile PAV (Getenv "REPOS") = Ok text ->
                  Unmarshal text = inr e ->
                  load Getenv PAV Unmarshal = Die (CouldNotParse e)) /\
  (forall js, load Getenv PAV Unmarshal = Ok js ->
     exists text ds,
       reconcile PAV (Getenv "REPOS") = Ok text /\ Unmarshal text = inl ds /\
       js = map (fun d => newJob (descID d) (descFrom d) (descTo d)) ds).
Proof.
  intros HR. apply String.eqb_neq in HR. unfold load. rewrite HR. cbn [negb].
  split; [|split].
  - intros f ->. reflexivity.
  - intros text e -> ->. reflexivity.
  - intros js. destruct (reconcile PAV (Getenv "REPOS")) as [text|f]; [|discriminate].
    destruct (Unmarshal text) as [ds|e] eqn:EU; [|discriminate].
    intros H. injection H as <-. exists text, ds. repeat split. exact EU.
Qed.

Lemma repos_errors_are_fatal_sample :
  load (Sample.getenv [("REPOS", "[{"); ("FROM_REPO", "repo-x"); ("TO_REPO", "repo-y")])
       (Sample.metadata []) (Sample.unmarshal []) =
  Die (CouldNotParse "invalid character").
Proof.
  refine (proj1 (proj2 (repos_errors_are_fatal
            (Sample.getenv [("REPOS", "[{"); ("FROM_REPO", "repo-x"); ("TO_REPO", "repo-y")])
            (Sample.metadata []) (Sample.unmarshal []) _)) "[{" "invalid character" _ _).
  - discriminate.
  - reflexivity.
  - reflexivity.
Defined.

Lemma start_keeps_statusTime (PAV : string -> string + string) (t : Time.Time) js :
  Forall (fun j => statusTime j = t) js ->
  Forall (fun j => statusTime j = t) (fst (start PAV js)).
Proof.
  induction 1 as [|j rest Hj _ IH]; [constructor|].
  destruct (passes PAV j) eqn:Hp.
  - destruct (start_cons_passes PAV j rest Hp) as (s & Hs & Ef & _).
    destruct Hs as (_ & _ & _ & _ & Ht & _).
    rewrite Ef. constructor; [congruence | exact IH].
  - destruct (start_cons_fails PAV j rest Hp) as (-> & _). constructor.
Qed.

Lemma main_statusTime Getenv PAV Unmarshal :
  Forall (fun j => statusTime j = Time.zero) (fst (main Getenv PAV Unmarshal)).
Proof.
  unfold main. destruct (load Getenv PAV Unmarshal) as [js|f] eqn:E; [|constructor].
  apply start_keeps_statusTime.
  unfold load in E.
  destruct (negb (String.eqb (Getenv "REPOS") "")).
  - destruct (reconcile PAV (Getenv "REPOS")); [|discriminate].
    destruct (Unmarshal a); [|discriminate]. injection E as <-.
    apply Forall_forall. intros j Hj. apply in_map_iff in Hj.
    destruct Hj as (d & <- & _). reflexivity.
  - destruct (negb (String.eqb (Getenv "FROM_REPO") "") &&
              negb (String.eqb (Getenv "TO_REPO") "")); [|discriminate].
    injection E as <-. repeat constructor.
Qed.

(** X6: [main] sets [statusOK] of a job but not its [statusTime], which
    stays the zero time.  So between the start of the process and the
    first publication of every loop, a status request made at any time
    since 1970 is answered with 500, although all jobs show OK true. *)
Theorem unpublished_jobs_look_stale (Getenv : string -> string)
    (PAV : string -> string + string)
    (Unmarshal : string -> list Descriptor + string)
    (Quote : string -> string) (timeString : Time.Time -> string)
    (clock : nat -> Time.Time) :
  let jobs := fst (main Getenv PAV Unmarshal) in
  jobs <> [] ->
  (0 <= clock 0%nat)%Z ->
  Forall (fun j => statusOK j = true /\ statusTime j = Time.zero) jobs /\
  Http.StatusCode (statusz Quote timeString clock jobs Http.fresh) = 500%Z.
Proof.
  intros jobs Hne Hclock. split.
  - pose proof (main_statusTime Getenv PAV Unmarshal) as Ht. fold jobs in Ht.
    apply Forall_forall. intros j Hj. split.
    + unfold jobs, main in Hj.
      destruct (load Getenv PAV Unmarshal) as [js|f]; [|destruct Hj].
      destruct (Forall2_In_left _ _ _ j (start_checked PAV js) Hj)
        as (j0 & _ & _ & Hok & _).
      exact Hok.
    + rewrite Forall_forall in Ht. auto.
  - rewrite statusz_code.
    pose proof (main_statusTime Getenv PAV Unmarshal) as Ht. fold jobs in Ht.
    destruct jobs as [|j rest]; [contradiction|].
    inversion Ht as [|? ? Hj _]; subst.
    cbn [anyBad]. unfold stale, Time.After, Time.Add. rewrite Hj.
    replace (Time.zero + 15 * Time.Minute <? clock 0%nat)%Z with true.
    + now rewrite orb_true_r.
    + symmetry. apply Z.ltb_lt. unfold Time.zero, Time.Minute, Time.Second. lia.
Qed.

Lemma unpublished_jobs_look_stale_sample :
  let jobs := fst (main (Sample.getenv [("FROM_REPO", "repo-x"); ("TO_REPO", "repo-y")])
                        (Sample.metadata []) (Sample.unmarshal [])) in
  jobs = [mkJob "default" "repo-x" "repo-y" Time.zero true ""] /\
  Http.StatusCode (statusz (fun s => s) (fun _ => "")
                           (fun _ => 1700000000 * Time.Second)%Z jobs Http.fresh) = 500%Z.
Proof.
  cbv zeta. split; [reflexivity|].
  apply (unpublished_jobs_look_stale
           (Sample.getenv [("FROM_REPO", "repo-x"); ("TO_REPO", "repo-y")])
           (Sample.metadata []) (Sample.unmarshal [])
           (fun s => s) (fun _ => "") (fun _ => 1700000000 * Time.Second)%Z).
  - discriminate.
  - vm_compute. discriminate.
Defined.

(* ================================================================== *)
(** ** More on redaction *)
(* ================================================================== *)

Lemma replace_from_absent old new s :
  Bytes.Contains s old = false -> Bytes.replace_from old new 0 s = s.
Proof.
  induction s as [|c s IH]; intros H; [reflexivity|].
  cbn [Bytes.replace_from]. rewrite (Contains_head _ _ H).
  f_equal. apply IH. eapply Contains_tail. exact H.
Qed.

Lemma Replace_absent s old new :
  Bytes.Contains s old = false -> Bytes.Replace s old new = s.
Proof.
  intros H. unfold Bytes.Replace. destruct old as [|c old].
  - rewrite Contains_nil in H. discriminate.
  - apply replace_from_absent. exact H.
Qed.

(** X7: a buffer in which neither [From] nor [To] occurs is logged as it
    is: redaction changes nothing else than occurrences of the two
    strings. *)
Theorem redaction_leaves_other_text (ok : bool) (msg : string) (v : list Value)
    (w : World) :
  Bytes.Contains (buffer msg v) (From (self w)) = false ->
  Bytes.Contains (buffer msg v) (To (self w)) = false ->
  trace (snd (status ok msg v w)) =
    trace w ++ [SetStatus ok msg (now w);
                Log ((if ok then "OK: " else "FAIL: ") ++ buffer msg v)%string].
Proof.
  intros HF HT. cbn [status snd trace]. unfold redact.
  rewrite (Replace_absent _ _ _ HF), (Replace_absent _ _ _ HT). reflexivity.
Qed.

Lemma redaction_leaves_other_text_sample :
  trace (snd (ok "Cloned" [Output "Cloning into 'repo-a'..."] (boot Sample.jobA 0%Z))) =
  [SetStatus true "Cloned" 0%Z;
   Log ("OK: Cloned" ++ nl ++ "Cloning into 'repo-a'..." ++ nl)%string].
Proof.
  apply (redaction_leaves_other_text true "Cloned" [Output "Cloning into 'repo-a'..."]
           (boot Sample.jobA 0%Z)); reflexivity.
Defined.

(** X8: under the conditions that make redaction complete, redacting a
    text that has been redacted changes nothing. *)
Theorem redaction_is_idempotent (from to b : string) :
  Bytes.mem "<" from = false -> Bytes.mem ">" from = false ->
  Bytes.mem "<" to = false -> Bytes.mem ">" to = false ->
  Bytes.Contains REDACTED_FROM from = false ->
  Bytes.Contains REDACTED_TO from = false ->
  Bytes.Contains REDACTED_TO to = false ->
  redact from to (redact from to b) = redact from to b.
Proof.
  intros Hf1 Hf2 Ht1 Ht2 Hff Hft Htt.
  destruct (redact_free from to b Hf1 Hf2 Ht1 Ht2 Hff Hft Htt) as [HF HT].
  unfold redact at 1.
  rewrite (Replace_absent _ _ _ HF), (Replace_absent _ _ _ HT). reflexivity.
Qed.

Lemma redaction_is_idempotent_sample :
  let from := "https://token@github.com/a/b" in
  let to := "https://token@example.org/b" in
  let b := "fatal: unable to access 'https://token@example.org/b/'" in
  redact from to (redact from to b) = "fatal: unable to access '<REDACTED (TO)>/'".
Proof.
  cbv zeta.
  rewrite (redaction_is_idempotent
             "https://token@github.com/a/b" "https://token@example.org/b"
             "fatal: unable to access 'https://token@example.org/b/'"
             eq_refl eq_refl eq_refl eq_refl eq_refl eq_refl eq_refl).
  vm_compute. reflexivity.
Defined.

Lemma runeWidth_sevenBit c s :
  (N_of_ascii c <? 0x80)%N = true -> Bytes.runeWidth (String c s) = 1.
Proof. intros H. cbn [Bytes.runeWidth]. now rewrite H. Qed.

Lemma insert_around_sevenBit new s :
  sevenBit s = true -> Bytes.insert_around new 0 s = around new s.
Proof.
  unfold around. induction s as [|c s IH]; intros H.
  - cbn. now rewrite append_nil_r.
  - cbn [sevenBit] in H. apply andb_true_iff in H. destruct H as [Hc Hs].
    cbn [Bytes.insert_around after_each]. rewrite (runeWidth_sevenBit c s Hc).
    cbn [Nat.sub]. rewrite (IH Hs). reflexivity.
Qed.

(** X9: a job whose [From] is empty (a metadata value can be) has the
    placeholder for [From] put in front of every byte of a 7-bit status
    text and at its end, before [To] is replaced. *)
Theorem empty_from_is_put_everywhere (to msg : string) (v : list Value) :
  sevenBit (buffer msg v) = true ->
  redact "" to (buffer msg v) =
  Bytes.Replace (around REDACTED_FROM (buffer msg v)) to REDACTED_TO.
Proof.
  intros H. unfold redact. f_equal. cbn [Bytes.Replace].
  apply insert_around_sevenBit. exact H.
Qed.

Lemma empty_from_is_put_everywhere_sample :
  redact "" "repo-y" (buffer "Pull" []) =
  ("<REDACTED (FROM)>P<REDACTED (FROM)>u<REDACTED (FROM)>l<REDACTED (FROM)>l" ++
   "<REDACTED (FROM)>" ++ nl ++ "<REDACTED (FROM)>")%string.
Proof.
  rewrite (empty_from_is_put_everywhere "repo-y" "Pull" [] eq_refl).
  vm_compute. reflexivity.
Defined.

(* ================================================================== *)
(** ** What holds all along a run of [mirror] *)
(* ================================================================== *)

Section Keeps.

Context {I : World -> Prop}.

Lemma keeps_ret {A} (a : A) : keeps I (ret a).
Proof. intros w H. exact H. Qed.

Lemma keeps_bind {A B} (m : M A) (k : A -> M B) :
  keeps I m -> (forall a, keeps I (k a)) -> keeps I (bind m k).
Proof.
  intros Hm Hk w H. unfold bind. specialize (Hm w H).
  destruct (m w) as [a w1]. apply Hk. exact Hm.
Qed.

Lemma keeps_iter {S A} (body : S -> M (S + A)) :
  (forall s, keeps I (body s)) -> forall fuel s, keeps I (iter fuel body s).
Proof.
  intros Hb. induction fuel as [|fuel IH]; intros s; [apply keeps_ret|].
  cbn [iter]. apply keeps_bind; [apply Hb|].
  intros [s'|a]; [apply IH | apply keeps_ret].
Qed.

End Keeps.

Lemma stamps_app a b : stamps (a ++ b) = stamps a ++ stamps b.
Proof. apply flat_map_app. Qed.

Lemma ascending_snoc l t :
  ascending l -> Forall (fun x => (x <= t)%Z) l -> ascending (l ++ [t]).
Proof.
  induction l as [|x l IH]; intros Ha Hb; [cbn; auto|].
  destruct Ha as [Hx Ha]. inversion Hb as [|? ? Hxt Hb']; subst.
  cbn. split.
  - apply Forall_app. split; [exact Hx | constructor; [exact Hxt | constructor]].
  - apply IH; assumption.
Qed.

Lemma Forall_le_trans (l : list Z) a b :
  (a <= b)%Z -> Forall (fun x => (x <= a)%Z) l -> Forall (fun x => (x <= b)%Z) l.
Proof.
  intros Hab H. eapply Forall_impl; [|exact H]. cbn. intros. lia.
Qed.

Section Orderly.

Variable answer : nat -> Reply.
Variable file : nat -> Reply.
Variable j : job.

(** Adding events without time stamp, the clock moving on. *)
Lemma orderly_quiet w self' now' calls' reads' limiter' evs :
  orderly j w ->
  sameJob j self' ->
  Forall (allowed j) evs ->
  stamps evs = [] ->
  (now w <= now')%Z ->
  orderly j (mkWorld self' now' calls' reads' limiter' (trace w ++ evs)).
Proof.
  intros (Hs & Ha & Hasc & Hb) Hs' He Hst Hn.
  unfold orderly. cbn [self trace now].
  rewrite stamps_app, Hst, app_nil_r.
  split; [exact Hs'|]. split; [apply Forall_app; auto|].
  split; [exact Hasc|]. eapply Forall_le_trans; eauto.
Qed.

(** Adding events stamped with the present instant. *)
Lemma orderly_stamped w self' now' calls' reads' limiter' evs t :
  orderly j w ->
  sameJob j self' ->
  Forall (allowed j) evs ->
  stamps evs = [t] ->
  (now w <= t)%Z -> (t <= now')%Z ->
  orderly j (mkWorld self' now' calls' reads' limiter' (trace w ++ evs)).
Proof.
  intros (Hs & Ha & Hasc & Hb) Hs' He Hst Ht Hn.
  unfold orderly. cbn [self trace now].
  rewrite stamps_app, Hst.
  split; [exact Hs'|]. split; [apply Forall_app; auto|].
  split.
  - apply ascending_snoc; [exact Hasc|]. eapply Forall_le_trans; eauto.
  - apply Forall_app. split.
    + eapply Forall_le_trans; [|exact Hb]. lia.
    + constructor; [exact Hn | constructor].
Qed.

Lemma sameJob_status a ok msg t :
  sameJob j a -> sameJob j (mkJob (ID a) (From a) (To a) t ok msg).
Proof. intros H. exact H. Qed.

Lemma orderly_status ok msg v : keeps (orderly j) (status ok msg v).
Proof.
  intros w H. cbn [status snd].
  apply (orderly_stamped w _ _ _ _ _ _ (now w)); try reflexivity; try lia.
  - exact H.
  - apply sameJob_status. apply H.
  - repeat constructor.
Qed.

Lemma orderly_emit e :
  allowed j e -> stamps [e] = [] -> keeps (orderly j) (emit e).
Proof.
  intros He Hst w H. cbn [emit snd].
  apply orderly_quiet; try assumption; try lia.
  - apply H.
  - constructor; [exact He | constructor].
Qed.

Lemma orderly_run wd argv :
  (forall t, allowed j (Exec t wd argv)) -> keeps (orderly j) (run answer wd argv).
Proof.
  intros He w H. cbn [run snd].
  apply (orderly_stamped w _ _ _ _ _ _ (now w)); try reflexivity; try lia.
  - exact H.
  - apply H.
  - constructor; [apply He | constructor].
Qed.

Lemma orderly_readFile path :
  allowed j (ReadFile path) -> keeps (orderly j) (readFile file path).
Proof.
  intros He w H. cbn [readFile snd].
  apply orderly_quiet; try reflexivity; try lia.
  - exact H.
  - apply H.
  - constructor; [exact He | constructor].
Qed.

Lemma orderly_sleep d : (0 <= d)%Z -> keeps (orderly j) (sleep d).
Proof.
  intros Hd w H. cbn [sleep snd].
  apply orderly_quiet; try reflexivity; try lia.
  - exact H.
  - apply H.
  - repeat constructor.
Qed.

Lemma granted_ge w : (now w <= granted w)%Z.
Proof. unfold granted. destruct (limiter w); lia. Qed.

Lemma orderly_limitWait : keeps (orderly j) limitWait.
Proof.
  intros w H. cbn [limitWait snd].
  apply (orderly_stamped w _ _ _ _ _ _ (granted w)); try reflexivity; try lia.
  - exact H.
  - apply H.
  - repeat constructor.
  - apply granted_ge.
Qed.

Lemma orderly_newLimiter : keeps (orderly j) newLimiter.
Proof.
  intros w H. cbn [newLimiter snd].
  exact H.
Qed.

Lemma orderly_getJob {A} (k : job -> M A) :
  (forall a, sameJob j a -> keeps (orderly j) (k a)) ->
  keeps (orderly j) (bind getJob k).
Proof.
  intros Hk w H. unfold bind, getJob. apply Hk; [apply H | exact H].
Qed.

End Orderly.

Ltac keeps_prim :=
  first [ apply orderly_status | apply orderly_run | apply orderly_readFile
        | apply orderly_sleep | apply orderly_limitWait | apply orderly_newLimiter
        | apply orderly_emit ].

Ltac keeps_auto :=
  repeat first
    [ apply keeps_ret
    | apply orderly_getJob; intros ? ?
    | apply keeps_bind; [ keeps_prim | intros ? ]
    | match goal with
      | |- keeps _ (match ?x with _ => _ end) => destruct x eqn:?
      end ].

Ltac allowed_side :=
  match goal with
  | H : sameJob _ ?a |- _ =>
      destruct H as (HI & HF & HT); intros; cbn [allowed stamps flat_map app];
      unfold dir; rewrite ?HI, ?HF, ?HT;
      first [ reflexivity
            | left; split; reflexivity
            | right; split; [reflexivity | cbn; tauto]
            | unfold Time.Second; lia ]
  end.

Section OrderlyLoops.

Variable answer : nat -> Reply.
Variable file : nat -> Reply.
Variable j : job.

Lemma clone_body_orderly : keeps (orderly j) (clone_body answer tt).
Proof.
  unfold clone_body, ok, statusErr. keeps_auto. all: allowed_side.
Qed.

Lemma remote_body_orderly : keeps (orderly j) (remote_body answer tt).
Proof.
  unfold remote_body, ok, statusErr. keeps_auto. all: allowed_side.
Qed.

Lemma sync_body_orderly oldSHA : keeps (orderly j) (sync_body answer file oldSHA).
Proof.
  unfold sync_body, ok, statusErr. keeps_auto. all: allowed_side.
Qed.

Lemma mirror_orderly fuel : keeps (orderly j) (mirror answer file fuel).
Proof.
  unfold mirror, cloning, afterClone, ok.
  apply keeps_bind.
  { apply keeps_bind; [apply orderly_status|]. intros _.
    apply keeps_iter. intros []. apply clone_body_orderly. }
  intros [[]|[]]; [apply keeps_ret|].
  apply keeps_bind.
  { apply keeps_iter. intros []. apply remote_body_orderly. }
  intros [[]|[]]; [apply keeps_ret|].
  apply keeps_bind; [apply orderly_newLimiter|]. intros _.
  apply keeps_bind.
  { apply keeps_iter. intros s. apply sync_body_orderly. }
  intros [s|[]]. apply keeps_ret.
Qed.

Lemma boot_orderly t0 : orderly j (boot j t0).
Proof. repeat split; constructor. Qed.

End OrderlyLoops.

(** X10: all along a run, [mirror] runs nothing but the five git
    commands of its job: the clone of [From] into the directory of the
    job and, inside that directory, [remote add to To], [pull],
    [push --all to] and [push --tags to]; it reads no file but the ref
    file of master in that directory, removes nothing but that
    directory, and leaves [ID], [From] and [To] of the job as they
    were. *)
Theorem mirror_runs_only_its_commands (answer file : nat -> Reply) (fuel : nat)
    (j : job) (t0 : Time.Time) :
  let w := snd (mirror answer file fuel (boot j t0)) in
  Forall (allowed j) (trace w) /\
  ID (self w) = ID j /\ From (self w) = From j /\ To (self w) = To j.
Proof.
  intros w.
  destruct (mirror_orderly answer file j fuel (boot j t0) (boot_orderly j t0))
    as (Hs & Ha & _ & _).
  split; [exact Ha | exact Hs].
Qed.

(* ================================================================== *)
(** ** The three phases *)
(* ================================================================== *)

Section Phases.

Variable answer : nat -> Reply.
Variable file : nat -> Reply.

Ltac phase_side :=
  first [ exact I | discriminate
        | (intros; cbn; first [ exact I | eexists; reflexivity | tauto
                              | left; reflexivity
                              | right; eexists; reflexivity
                              | left; cbn; tauto
                              | right; eexists; reflexivity ]) ].

Lemma clone_body_phase1 :
  emits inClonePhase
        (fun r : unit + unit => match r with inl _ => True | inr _ => True end)
        (clone_body answer tt).
Proof.
  unfold clone_body, ok, statusErr. emits_auto. all: phase_side.
Qed.

Lemma remote_body_phase2 :
  emits inRemotePhase
        (fun r : unit + unit => match r with inl _ => True | inr _ => True end)
        (remote_body answer tt).
Proof.
  unfold remote_body, ok, statusErr. emits_auto. all: phase_side.
Qed.

Lemma sync_body_phase3 oldSHA :
  emits inSyncPhase
        (fun r : string + Empty_set => match r with inl _ => True | inr _ => True end)
        (sync_body answer file oldSHA).
Proof.
  unfold sync_body, ok, statusErr. emits_auto. all: phase_side.
Qed.

Lemma cloning_phase1 fuel : emits inClonePhase (fun _ => True) (cloning answer fuel).
Proof.
  unfold cloning, ok.
  eapply emits_bind; [apply emits_status; intros; cbn; auto|]. intros _ _.
  eapply emits_weaken.
  - apply (emits_iter inClonePhase (fun _ : unit => True) (fun _ : unit => True)).
    + intros [] _. apply clone_body_phase1.
    + exact I.
  - auto.
Qed.

Lemma remote_loop_phase2 fuel :
  emits inRemotePhase (fun _ => True) (iter fuel (remote_body answer) tt).
Proof.
  eapply emits_weaken.
  - apply (emits_iter inRemotePhase (fun _ : unit => True) (fun _ : unit => True)).
    + intros [] _. apply remote_body_phase2.
    + exact I.
  - auto.
Qed.

Lemma sync_loop_phase3 fuel s :
  emits inSyncPhase (fun _ => True) (iter fuel (sync_body answer file) s).
Proof.
  eapply emits_weaken.
  - apply (emits_iter inSyncPhase (fun _ : string => True) (fun _ : Empty_set => True)).
    + intros s' _. apply sync_body_phase3.
    + exact I.
  - auto.
Qed.

(** How far a run of [mirror] gets. *)
Lemma mirror_run_cases fuel w0 :
  (exists w1, cloning answer fuel w0 = (inl tt, w1) /\
              snd (mirror answer file fuel w0) = w1) \/
  (exists w1 w2, cloning answer fuel w0 = (inr tt, w1) /\
                 iter fuel (remote_body answer) tt w1 = (inl tt, w2) /\
                 snd (mirror answer file fuel w0) = w2) \/
  (exists w1 w2 s w3,
     cloning answer fuel w0 = (inr tt, w1) /\
     iter fuel (remote_body answer) tt w1 = (inr tt, w2) /\
     iter fuel (sync_body answer file) "" (snd (newLimiter w2)) = (inl s, w3) /\
     snd (mirror answer file fuel w0) = w3).
Proof.
  assert (Em : mirror answer file fuel w0 =
    let (c, w1) := cloning answer fuel w0 in
    match c with
    | inl _ => (None, w1)
    | inr _ =>
        let (r, w2) := iter fuel (remote_body answer) tt w1 in
        match r with
        | inl _ => (None, w2)
        | inr _ =>
            let (s, w3) := iter fuel (sync_body answer file) "" (snd (newLimiter w2)) in
            match s with
            | inl oldSHA => (Some oldSHA, w3)
            | inr e => match e : Empty_set with end
            end
        end
    end).
  { unfold mirror, afterClone, bind.
    destruct (cloning answer fuel w0) as [[[]|[]] w1]; [reflexivity|].
    destruct (iter fuel (remote_body answer) tt w1) as [[[]|[]] w2]; [reflexivity|].
    cbn [newLimiter snd].
    destruct (iter fuel (sync_body answer file) "" _) as [[s|[]] w3]. reflexivity. }
  rewrite Em. clear Em.
  destruct (cloning answer fuel w0) as [[[]|[]] w1] eqn:E1.
  - left. exists w1. split; reflexivity.
  - right.
    destruct (iter fuel (remote_body answer) tt w1) as [[[]|[]] w2] eqn:E2.
    + left. exists w1, w2. split; [reflexivity|]. split; [exact E2 | reflexivity].
    + right.
      destruct (iter fuel (sync_body answer file) "" (snd (newLimiter w2)))
        as [[s|[]] w3] eqn:E3.
      exists w1, w2, s, w3. split; [reflexivity|]. split; [exact E2|].
      split; [exact E3 | reflexivity].
Qed.

(** A loop left by [break] ends with the publication of its success. *)
Lemma clone_loop_exit fuel : forall w w',
  iter fuel (clone_body answer) tt w = (inr tt, w') ->
  exists evs t text, trace w' = trace w ++ evs ++ [SetStatus true "Cloned" t; Log text].
Proof.
  induction fuel as [|fuel IH]; intros w w' E; [discriminate|].
  cbn [iter] in E. unfold bind in E.
  destruct (clone_body answer tt w) as [[[]|[]] w1] eqn:Eb.
  - destruct (IH w1 w' E) as (evs & t & text & Ht).
    destruct (clone_body_phase1 w) as (evs1 & Ht1 & _). rewrite Eb in Ht1. cbn in Ht1.
    exists (evs1 ++ evs), t, text. rewrite Ht, Ht1. now rewrite <- !app_assoc.
  - injection E as <-. revert Eb. step.
    destruct (err (answer (calls w))); step; intros Eb; [discriminate|].
    injection Eb as <-. cbn [trace]. flat.
    eexists [_], _, _. reflexivity.
Qed.

Lemma remote_loop_exit fuel : forall w w',
  iter fuel (remote_body answer) tt w = (inr tt, w') ->
  exists evs t text,
    trace w' = trace w ++ evs ++ [SetStatus true "Added remote" t; Log text].
Proof.
  induction fuel as [|fuel IH]; intros w w' E; [discriminate|].
  cbn [iter] in E. unfold bind in E.
  destruct (remote_body answer tt w) as [[[]|[]] w1] eqn:Eb.
  - destruct (IH w1 w' E) as (evs & t & text & Ht).
    destruct (remote_body_phase2 w) as (evs1 & Ht1 & _). rewrite Eb in Ht1. cbn in Ht1.
    exists (evs1 ++ evs), t, text. rewrite Ht, Ht1. now rewrite <- !app_assoc.
  - injection E as <-. revert Eb. step.
    destruct (err (answer (calls w))); step; intros Eb; [discriminate|].
    injection Eb as <-. cbn [trace]. flat.
    eexists [_; _; _], _, _. reflexivity.
Qed.

End Phases.

(** X12: the trace of a run of [mirror] is the events of the clone loop,
    then those of the remote-setup loop, then those of the
    pull/compare/push loop: no clone and no removal after the clone
    loop, no pull, push or file read before the third loop.  The second
    part starts only after the publication of "Cloned" and the third
    only after that of "Added remote". *)
Theorem phases_in_order (answer file : nat -> Reply) (fuel : nat)
    (j : job) (t0 : Time.Time) :
  exists a b c,
    trace (snd (mirror answer file fuel (boot j t0))) = a ++ b ++ c /\
    Forall inClonePhase a /\ Forall inRemotePhase b /\ Forall inSyncPhase c /\
    (b <> [] -> exists a' t text, a = a' ++ [SetStatus true "Cloned" t; Log text]) /\
    (c <> [] -> exists b' t text, b = b' ++ [SetStatus true "Added remote" t; Log text]).
Proof.
  destruct (mirror_run_cases answer file fuel (boot j t0))
    as [(w1 & E1 & ->) | [(w1 & w2 & E1 & E2 & ->) | (w1 & w2 & s & w3 & E1 & E2 & E3 & ->)]].
  - destruct (cloning_phase1 answer fuel (boot j t0)) as (a & Ha & _ & Pa & _).
    rewrite E1 in Ha. cbn in Ha.
    exists a, [], []. rewrite app_nil_r. repeat split; auto; congruence.
  - destruct (cloning_phase1 answer fuel (boot j t0)) as (a & Ha & _ & Pa & _).
    rewrite E1 in Ha. cbn in Ha.
    destruct (remote_loop_phase2 answer fuel w1) as (b & Hb & _ & Pb & _).
    rewrite E2 in Hb. cbn in Hb.
    exists a, b, []. rewrite app_nil_r, Hb, Ha. repeat split; auto; [|congruence].
    intros _.
    assert (Ec : iter fuel (clone_body answer) tt (snd (ok "Cloning" [] (boot j t0)))
                 = (inr tt, w1)) by exact E1.
    destruct (clone_loop_exit answer fuel _ _ Ec) as (evs & t & text & Ht).
    rewrite Ha in Ht. cbn [ok status snd trace app] in Ht.
    eexists (_ :: _ :: evs), t, text. exact Ht.
  - destruct (cloning_phase1 answer fuel (boot j t0)) as (a & Ha & _ & Pa & _).
    rewrite E1 in Ha. cbn in Ha.
    destruct (remote_loop_phase2 answer fuel w1) as (b & Hb & _ & Pb & _).
    rewrite E2 in Hb. cbn in Hb.
    destruct (sync_loop_phase3 answer file fuel "" (snd (newLimiter w2)))
      as (c & Hc & _ & Pc & _).
    rewrite E3 in Hc. cbn in Hc.
    exists a, b, c. rewrite Hc, Hb, Ha, <- app_assoc. repeat split; auto.
    + intros _.
      assert (Ec : iter fuel (clone_body answer) tt (snd (ok "Cloning" [] (boot j t0)))
                   = (inr tt, w1)) by exact E1.
      destruct (clone_loop_exit answer fuel _ _ Ec) as (evs & t & text & Ht).
      rewrite Ha in Ht. cbn [ok status snd trace app] in Ht.
      eexists (_ :: _ :: evs), t, text. exact Ht.
    + intros _.
      destruct (remote_loop_exit answer fuel _ _ E2) as (evs & t & text & Ht).
      rewrite Hb in Ht. apply app_inv_head in Ht.
      exists evs, t, text. exact Ht.
Qed.

(* ================================================================== *)
(** ** The remote-setup loop *)
(* ================================================================== *)

Lemma commands_app a b : commands (a ++ b) = commands a ++ commands b.
Proof. apply flat_map_app. Qed.



Section RemoteFacts.

Variable answer : nat -> Reply.



End RemoteFacts.



(* ================================================================== *)
(** ** One iteration of the third loop, case by case *)
(* ================================================================== *)

(** X15: after an iteration of the third loop the job is OK exactly
    when no step of the iteration failed: the pull and the read of the
    ref file succeeded and either HEAD was the recorded one or both
    pushes succeeded.  The message names the step that failed, or the
    way the iteration ended. *)
Theorem sync_status_tells_outcome (answer file : nat -> Reply) (oldSHA : string)
    (w : World) :
  let pull := answer (calls w) in
  let head := file (reads w) in
  let push := answer (1 + calls w) in
  let tags := answer (2 + calls w) in
  let same := String.eqb (out head) oldSHA in
  let j' := self (snd (sync_body answer file oldSHA w)) in
  statusOK j' =
    negb (failed pull) && negb (failed head) &&
    (same || negb (failed push) && negb (failed tags)) /\
  statusMessage j' =
    (if failed pull then "Pull"
     else if failed head then "parse HEAD"
     else if same then "Synced - nothing to push: " ++ oldSHA
     else if failed push then "Push"
     else if failed tags then "Push tags"
     else "Synced - pushed")%string.
Proof.
  cbv zeta. unfold failed. cbn [Nat.add]. step.
  destruct (err (answer (calls w))); step; [split; reflexivity|].
  destruct (err (file (reads w))); step; [split; reflexivity|].
  destruct (String.eqb (out (file (reads w))) oldSHA); step; [split; reflexivity|].
  destruct (err (answer (S (calls w)))); step; [split; reflexivity|].
  destruct (err (answer (S (S (calls w))))); step; split; reflexivity.
Qed.

(** X16: a step that fails ends the iteration: after a failed pull the
    ref file is not read; [git push --all] is run only when the pull and
    the read succeeded and HEAD differs from the recorded one, and
    [git push --tags] only when, on top of that, [git push --all]
    succeeded. *)
Theorem sync_stops_at_first_failure (answer file : nat -> Reply) (oldSHA : string)
    (w : World) :
  let pull := answer (calls w) in
  let head := file (reads w) in
  let push := answer (1 + calls w) in
  let changed := negb (failed pull) && negb (failed head) &&
                 negb (String.eqb (out head) oldSHA) in
  let w' := snd (sync_body answer file oldSHA w) in
  commands (trace w') =
    commands (trace w) ++
    [["git"; "pull"]] ++
    (if changed then [["git"; "push"; "--all"; "to"]] else []) ++
    (if changed && negb (failed push) then [["git"; "push"; "--tags"; "to"]] else []) /\
  reads w' = (if failed pull then reads w else S (reads w)).
Proof.
  cbv zeta. unfold failed. cbn [Nat.add]. step.
  destruct (err (answer (calls w))); step;
    [flat; cbn [trace reads]; rewrite !commands_app; cbn; split; reflexivity|].
  destruct (err (file (reads w))); step;
    [flat; cbn [trace reads]; rewrite !commands_app; cbn; split; reflexivity|].
  destruct (String.eqb (out (file (reads w))) oldSHA); step;
    [flat; cbn [trace reads]; rewrite !commands_app; cbn; split; reflexivity|].
  destruct (err (answer (S (calls w)))); step;
    [flat; cbn [trace reads]; rewrite !commands_app; cbn; split; reflexivity|].
  destruct (err (answer (S (S (calls w))))); step;
    flat; cbn [trace reads]; rewrite !commands_app; cbn; split; reflexivity.
Qed.

(* ================================================================== *)
(** ** The endpoint after a run *)
(* ================================================================== *)

Lemma last_cons {A} (a d : A) l : last (a :: l) d = last l a.
Proof.
  revert a d. induction l as [|b l IH]; intros a d; [reflexivity|].
  change (last (a :: b :: l) d) with (last (b :: l) d).
  rewrite (IH b d), (IH b a). reflexivity.
Qed.

Lemma published_last evs : forall j,
  (statusOK (published evs j), statusMessage (published evs j)) =
  last (statuses evs) (statusOK j, statusMessage j).
Proof.
  induction evs as [|e evs IH]; intros j; [reflexivity|].
  unfold published in *. cbn [fold_left]. rewrite IH.
  destruct e; try reflexivity.
  cbn [publish statusOK statusMessage statuses flat_map app].
  fold (statuses evs). now rewrite last_cons.
Qed.

(** X17: what the status endpoint shows of a job after a run of its
    loop is the last publication of the loop: the OK flag and the
    message of the job are those of the last status in the trace, and
    when that status is a failure the endpoint answers 500. *)
Theorem endpoint_shows_last_publication (answer file : nat -> Reply) (fuel : nat)
    (j : job) (t0 : Time.Time)
    (Quote : string -> string) (timeString : Time.Time -> string)
    (clock : nat -> Time.Time) :
  let w := snd (mirror answer file fuel (boot j t0)) in
  statuses (trace w) <> [] /\
  (statusOK (self w), statusMessage (self w)) = last (statuses (trace w)) (true, "") /\
  (statusOK (self w) = false ->
   Http.StatusCode (statusz Quote timeString clock [self w] Http.fresh) = 500%Z).
Proof.
  intros w.
  destruct (mirror_head answer file fuel j t0) as (rest & Ht & Hs & _).
  fold w in Ht, Hs. rewrite Hs, Ht. split; [discriminate|]. split.
  - rewrite published_last. cbn [firstPublication app statuses flat_map].
    fold (statuses rest). rewrite !last_cons. reflexivity.
  - intros Hok. rewrite statusz_code. cbn [anyBad]. rewrite Hok. reflexivity.
Qed.

Lemma endpoint_shows_last_publication_sample :
  let answer := Sample.replies [Sample.failure 3 "auth error" "exit status 128"] in
  let w := snd (mirror answer (Sample.replies []) 1 (boot Sample.jobA 0%Z)) in
  (statusOK (self w), statusMessage (self w)) = (false, "Cloning") /\
  Http.StatusCode (statusz (fun s => s) (fun _ => "") (fun _ => 0%Z) [self w] Http.fresh)
    = 500%Z.
Proof.
  cbv zeta.
  destruct (endpoint_shows_last_publication
              (Sample.replies [Sample.failure 3 "auth error" "exit status 128"])
              (Sample.replies []) 1 Sample.jobA 0%Z
              (fun s => s) (fun _ => "") (fun _ => 0%Z)) as (_ & Hlast & H500).
  split.
  - rewrite Hlast. reflexivity.
  - apply H500. reflexivity.
Defined.
